(** * Translator: the streaming translation pipeline

    A shallow embedding of [services/geminiService.ts], [services/storage.ts]
    and the translator handlers of [App.tsx], with the properties of the
    pipeline proved over it.

    Conventions.
    - A JavaScript string is the list of its UTF-16 code units.
    - An async generator that is always drained by one [for await] loop is
      the finite list of what it does, in order, with the way it completes.
    - React state setters are run in program order on an explicit state; every
      observable effect is also appended to a trace. *)

From Stdlib Require Import NArith ZArith QArith String Ascii Bool Lia List.
Import ListNotations.

Set Implicit Arguments.
Local Close Scope Q_scope.
Local Open Scope list_scope.

(** ** JavaScript strings *)

Definition jsstring : Type := list N.

(** [lit] reads an ASCII literal of the source as a string. *)
Definition lit (s : string) : jsstring :=
  map N_of_ascii (list_ascii_of_string s).

Definition dquote : jsstring := [34%N].

Module JSString.

Definition t := jsstring.

Definition empty : t := [].

(** The truthiness of a string: only [""] is falsy. *)
Definition truthy (s : t) : bool :=
  match s with
  | [] => false
  | _ :: _ => true
  end.

(** [===] on strings. *)
Fixpoint eqb (a b : t) : bool :=
  match a, b with
  | [], [] => true
  | x :: a', y :: b' => N.eqb x y && eqb a' b'
  | _, _ => false
  end.

(** The code units [String.prototype.trim] strips: WhiteSpace and
    LineTerminator of ECMAScript. *)
Definition isWhiteSpace (c : N) : bool :=
  (N.leb 0x0009 c && N.leb c 0x000D)
  || N.eqb c 0x0020 || N.eqb c 0x00A0 || N.eqb c 0x1680
  || (N.leb 0x2000 c && N.leb c 0x200A)
  || N.eqb c 0x2028 || N.eqb c 0x2029 || N.eqb c 0x202F
  || N.eqb c 0x205F || N.eqb c 0x3000 || N.eqb c 0xFEFF.

Fixpoint trimStart (s : t) : t :=
  match s with
  | [] => []
  | c :: rest => if isWhiteSpace c then trimStart rest else s
  end.

Definition trimEnd (s : t) : t := rev (trimStart (rev s)).

Definition trim (s : t) : t := trimEnd (trimStart s).

(** Blank: empty, or made of white space only. *)
Definition blank (s : t) : bool := forallb isWhiteSpace s.

End JSString.

(** ** types.ts *)

Inductive TranslationDirection := HI_TO_EN | EN_TO_HI.

Definition direction_eqb (a b : TranslationDirection) : bool :=
  match a, b with
  | HI_TO_EN, HI_TO_EN | EN_TO_HI, EN_TO_HI => true
  | _, _ => false
  end.

Inductive TranslationStatus := IDLE | LOADING | STREAMING | SUCCESS | ERROR.

Record TranslationHistoryItem := {
  id : jsstring;
  original : jsstring;
  translated : jsstring;
  timestamp : Z;
  direction : TranslationDirection
}.

Inductive ToastType := success | error | info.

Record ToastMessage := {
  toast_id : jsstring;
  type : ToastType;
  message : jsstring
}.

Record Script := {
  script_id : jsstring;
  title : jsstring;
  content : jsstring;
  lastModified : Z
}.

(** ** services/geminiService.ts *)

Definition SYSTEM_INSTRUCTION_HI_TO_EN : jsstring :=
  lit "
You are a world-class script localization expert and linguist. Your task is to translate Hindi/Hinglish video scripts into United States English.

CRITICAL INSTRUCTIONS FOR LONG-FORM SCRIPTS:
1. **NO SUMMARIZATION**: You must translate every single sentence. Do not shorten, summarize, or skip any part of the text. The output length must correspond to the input.
2. **STORYTELLING FLOW**: This is for a video script. The English output must flow naturally for a voice-over artist. Maintain the narrative arc, suspense, energy, and emotional beats of the original speaker.
3. **PUNCTUATION MASTERY**: Pay extreme attention to punctuation. Use commas, periods, em-dashes, and ellipses correctly to indicate the pauses, breathing room, and emphasis required for natural US speech.
4. **CONSISTENCY**: Ensure terminology and tone remain consistent from the first sentence to the last.
5. **CULTURAL TRANSLATION**: Convert Indian idioms to their closest natural US equivalents.
   - If the input is casual/slang (e.g., 'Kya bolti public', 'Bhai'), use American slang (e.g., 'What's up everyone', 'Bro/Dude').
   - If the input is formal, keep it professional.

Your goal is a flawless, ready-to-record US English script.
".

Definition SYSTEM_INSTRUCTION_EN_TO_HI : jsstring :=
  lit "
You are a world-class script localization expert. Your task is to translate United States English video scripts into natural, conversational Hindi/Hinglish (India).

CRITICAL INSTRUCTIONS FOR LONG-FORM SCRIPTS:
1. **NO SUMMARIZATION**: Translate the entire script. Do not skip or condense any information.
2. **DESI STORYTELLING**: The output should sound like a native Indian storyteller or YouTuber. Use a mix of Hindi and English (Hinglish) that feels authentic to daily conversation and social media content.
3. **EMOTIONAL RESONANCE**: Capture the excitement, humor, or seriousness of the original US script.
4. **NATURAL FLOW**: The text should be easy to read aloud. Avoid overly bookish or " ++ dquote ++
  lit "Shuddh" ++ dquote ++
  lit " Hindi unless the context demands it. Use popular Hinglish terms where appropriate.
5. **PUNCTUATION**: Maintain correct punctuation to guide the flow of reading.

Your goal is a script that connects instantly with an Indian audience.
".

(** The argument of [ai.models.generateContentStream]. *)
Record GenerateContentParameters := {
  model : jsstring;
  contents : jsstring;
  systemInstruction : jsstring;
  temperature : Q
}.

(** A chunk of the response; its [text] may be absent. *)
Record Chunk := { text : option jsstring }.

(** What the remote service answers to one call: the call itself is
    rejected, or it gives a finite stream of chunks that ends normally or
    breaks off with an error. *)
Inductive StreamEnd := EndOfStream | StreamError.

Inductive Response :=
| Rejected
| Streamed (chunks : list Chunk) (ending : StreamEnd).

Definition Remote := GenerateContentParameters -> Response.

(** What a run of the generator does, in order. *)
Inductive GenEvent :=
| GenCall (params : GenerateContentParameters)
| GenYield (fragment : jsstring)
| GenConsoleError.

Inductive Completion :=
| Return
| Throw (msg : jsstring).

Record Generator := {
  events : list GenEvent;
  completion : Completion
}.

(** [for await (const chunk of response) if (chunk.text) yield chunk.text] *)
Fixpoint yield_chunks (response : list Chunk) : list GenEvent :=
  match response with
  | [] => []
  | chunk :: rest =>
      match text chunk with
      | Some txt =>
          if JSString.truthy txt then GenYield txt :: yield_chunks rest
          else yield_chunks rest
      | None => yield_chunks rest
      end
  end.

Definition translateTextStream (ai : Remote) (text : jsstring)
    (direction : TranslationDirection) : Generator :=
  if negb (JSString.truthy text) || JSString.eqb (JSString.trim text) JSString.empty
  then {| events := []; completion := Return |}
  else
    let systemInstruction :=
      if direction_eqb direction HI_TO_EN
      then SYSTEM_INSTRUCTION_HI_TO_EN
      else SYSTEM_INSTRUCTION_EN_TO_HI in
    let params := {|
      model := lit "gemini-2.5-flash";
      contents := text;
      systemInstruction := systemInstruction;
      temperature := (4 # 10)%Q
    |} in
    let failure := Throw (lit "Connection interrupted. Please try again.") in
    match ai params with
    | Rejected =>
        {| events := [GenCall params; GenConsoleError]; completion := failure |}
    | Streamed response EndOfStream =>
        {| events := GenCall params :: yield_chunks response;
           completion := Return |}
    | Streamed response StreamError =>
        {| events := GenCall params :: yield_chunks response ++ [GenConsoleError];
           completion := failure |}
    end.

(** The argument [translateTextStream] passes to
    [ai.models.generateContentStream] for a text and a direction. *)
Definition request (text : jsstring) (direction : TranslationDirection)
  : GenerateContentParameters :=
  {| model := lit "gemini-2.5-flash";
     contents := text;
     systemInstruction :=
       match direction with
       | HI_TO_EN => SYSTEM_INSTRUCTION_HI_TO_EN
       | EN_TO_HI => SYSTEM_INSTRUCTION_EN_TO_HI
       end;
     temperature := (4 # 10)%Q |}.

(** The fragments a generator yields, in order, and the calls it issues. *)
Fixpoint fragments (evs : list GenEvent) : list jsstring :=
  match evs with
  | [] => []
  | GenYield f :: rest => f :: fragments rest
  | _ :: rest => fragments rest
  end.

Fixpoint calls (evs : list GenEvent) : list GenerateContentParameters :=
  match evs with
  | [] => []
  | GenCall p :: rest => p :: calls rest
  | _ :: rest => calls rest
  end.

(** ** services/storage.ts *)

(** The object kept under [DATA_KEY]; a field may be absent. *)
Record AppData := {
  data_scripts : option (list Script);
  data_history : option (list TranslationHistoryItem)
}.

(** [localStorage] at [DATA_KEY]: nothing, or the JSON text of an object.
    The text is kept as the object it parses to: [JSON.parse] gives back
    what [JSON.stringify] was given for objects of strings and integers, and
    the text of an object is never the empty (falsy) string. *)
Definition LocalStorage := option AppData.

(** One field of [{...a, ...b}]. *)
Definition spread_field {A : Type} (a b : option A) : option A :=
  match b with
  | Some v => Some v
  | None => a
  end.

(** [{...a, ...b}] *)
Definition spread (a b : AppData) : AppData :=
  {| data_scripts := spread_field (data_scripts a) (data_scripts b);
     data_history := spread_field (data_history a) (data_history b) |}.

Module storageService.

Definition getData (localStorage : LocalStorage) : AppData :=
  match localStorage with
  | Some data => data
  | None => {| data_scripts := Some []; data_history := Some [] |}
  end.

Definition saveData (data : AppData) (localStorage : LocalStorage)
  : LocalStorage :=
  let currentData := getData localStorage in
  let newData := spread currentData data in
  Some newData.

(** [scripts.findIndex(s => s.id === id)], [None] for [-1]. *)
Fixpoint findIndex (sid : jsstring) (scripts : list Script) : option nat :=
  match scripts with
  | [] => None
  | s :: rest =>
      if JSString.eqb (script_id s) sid then Some 0
      else option_map S (findIndex sid rest)
  end.

(** [scripts[index] = script] for an index inside the array. *)
Fixpoint assign (scripts : list Script) (index : nat) (script : Script)
  : list Script :=
  match scripts, index with
  | [], _ => []
  | _ :: rest, O => script :: rest
  | s :: rest, S i => s :: assign rest i script
  end.

(** [data.scripts || []] *)
Definition scripts_or_empty (data : AppData) : list Script :=
  match data_scripts data with
  | Some scripts => scripts
  | None => []
  end.

Definition saveScript (script : Script) (localStorage : LocalStorage)
  : LocalStorage :=
  let data := getData localStorage in
  let scripts := scripts_or_empty data in
  let scripts :=
    match findIndex (script_id script) scripts with
    | Some index => assign scripts index script
    | None => script :: scripts
    end in
  saveData {| data_scripts := Some scripts; data_history := None |}
    localStorage.

Definition deleteScript (scriptId : jsstring) (localStorage : LocalStorage)
  : LocalStorage :=
  let data := getData localStorage in
  let scripts :=
    filter (fun s => negb (JSString.eqb (script_id s) scriptId))
      (scripts_or_empty data) in
  saveData {| data_scripts := Some scripts; data_history := None |}
    localStorage.

End storageService.

(** ** App.tsx: the translator state and its handlers

    The state kept is the translator's and the list of scripts; the view,
    the panels and the script being edited play no part in what follows. *)

Record AppState := {
  inputText : jsstring;
  outputText : jsstring;
  app_direction : TranslationDirection;
  status : TranslationStatus;
  history : list TranslationHistoryItem;
  toasts : list ToastMessage;
  scripts : list Script
}.

(** The state after mounting [App], before any effect has run. *)
Definition initialState : AppState := {|
  inputText := JSString.empty;
  outputText := JSString.empty;
  app_direction := HI_TO_EN;
  status := IDLE;
  history := [];
  toasts := [];
  scripts := []
|}.

(** What a handler does that can be seen from outside, in order. *)
Inductive Event :=
| EvSetStatus (s : TranslationStatus)
| EvSetInputText (txt : jsstring)
| EvSetOutputText (txt : jsstring)
| EvSetDirection (d : TranslationDirection)
| EvSetHistory (h : list TranslationHistoryItem)
| EvToast (toast : ToastMessage)
| EvConsoleError
| EvRemoteCall (params : GenerateContentParameters)
| EvFragment (fragment : jsstring).

Record World := {
  app : AppState;
  trace : list Event
}.

(** A handler is a state transformer on [World]. *)
Definition M (A : Type) : Type := World -> A * World.

Definition ret {A : Type} (a : A) : M A := fun w => (a, w).

Definition bind {A B : Type} (m : M A) (k : A -> M B) : M B :=
  fun w => let (a, w') := m w in k a w'.

Declare Scope handler_scope.
Delimit Scope handler_scope with handler.
Notation "x <- m ;; k" := (bind m (fun x => k))
  (at level 61, m at next level, right associativity) : handler_scope.
Notation "m ;; k" := (bind m (fun _ => k))
  (at level 61, right associativity) : handler_scope.
Local Open Scope handler_scope.

Definition emit (e : Event) : M unit :=
  fun w => (tt, {| app := app w; trace := trace w ++ [e] |}).

Definition update (f : AppState -> AppState) : M unit :=
  fun w => (tt, {| app := f (app w); trace := trace w |}).

Definition with_status (s : TranslationStatus) (st : AppState) : AppState :=
  {| inputText := inputText st; outputText := outputText st;
     app_direction := app_direction st; status := s;
     history := history st; toasts := toasts st; scripts := scripts st |}.

Definition with_inputText (txt : jsstring) (st : AppState) : AppState :=
  {| inputText := txt; outputText := outputText st;
     app_direction := app_direction st; status := status st;
     history := history st; toasts := toasts st; scripts := scripts st |}.

Definition with_outputText (txt : jsstring) (st : AppState) : AppState :=
  {| inputText := inputText st; outputText := txt;
     app_direction := app_direction st; status := status st;
     history := history st; toasts := toasts st; scripts := scripts st |}.

Definition with_direction (d : TranslationDirection) (st : AppState)
  : AppState :=
  {| inputText := inputText st; outputText := outputText st;
     app_direction := d; status := status st;
     history := history st; toasts := toasts st; scripts := scripts st |}.

Definition with_history (h : list TranslationHistoryItem) (st : AppState)
  : AppState :=
  {| inputText := inputText st; outputText := outputText st;
     app_direction := app_direction st; status := status st;
     history := h; toasts := toasts st; scripts := scripts st |}.

Definition with_toasts (ts : list ToastMessage) (st : AppState) : AppState :=
  {| inputText := inputText st; outputText := outputText st;
     app_direction := app_direction st; status := status st;
     history := history st; toasts := ts; scripts := scripts st |}.

Definition with_scripts (ss : list Script) (st : AppState) : AppState :=
  {| inputText := inputText st; outputText := outputText st;
     app_direction := app_direction st; status := status st;
     history := history st; toasts := toasts st; scripts := ss |}.

Definition setStatus (s : TranslationStatus) : M unit :=
  emit (EvSetStatus s) ;; update (with_status s).

Definition setInputText (txt : jsstring) : M unit :=
  emit (EvSetInputText txt) ;; update (with_inputText txt).

Definition setOutputText (txt : jsstring) : M unit :=
  emit (EvSetOutputText txt) ;; update (with_outputText txt).

(** [setDirection(prev => f(prev))] *)
Definition setDirection (f : TranslationDirection -> TranslationDirection)
  : M unit :=
  fun w =>
    let d := f (app_direction (app w)) in
    (emit (EvSetDirection d) ;; update (with_direction d)) w.

(** [setHistory(prev => f(prev))] *)
Definition setHistory
    (f : list TranslationHistoryItem -> list TranslationHistoryItem)
  : M unit :=
  fun w =>
    let h := f (history (app w)) in
    (emit (EvSetHistory h) ;; update (with_history h)) w.

(** [addToast]; [newId] is what [generateId()] returns. The removal of the
    toast three seconds later is not part of the handler's run. *)
Definition addToast (newId : jsstring) (msg : jsstring) (ty : ToastType)
  : M unit :=
  let toast := {| toast_id := newId; message := msg; type := ty |} in
  emit (EvToast toast) ;;
  update (fun st => with_toasts (toasts st ++ [toast]) st).

(** [array.slice(start, stop)] for [0 <= start <= stop]. *)
Definition slice {A : Type} (start stop : nat) (l : list A) : list A :=
  firstn (stop - start) (skipn start l).

(** The body of [for await (const chunk of stream)], run over what the
    generator does until it completes; returns [accumulatedText]. *)
Fixpoint for_await (stream : list GenEvent) (accumulatedText : jsstring)
  : M jsstring :=
  match stream with
  | [] => ret accumulatedText
  | GenCall params :: rest =>
      emit (EvRemoteCall params) ;; for_await rest accumulatedText
  | GenConsoleError :: rest =>
      emit EvConsoleError ;; for_await rest accumulatedText
  | GenYield chunk :: rest =>
      emit (EvFragment chunk) ;;
      let accumulatedText := accumulatedText ++ chunk in
      setOutputText accumulatedText ;;
      for_await rest accumulatedText
  end.

(** The updater that [handleTranslate] passes to [setHistory]:
    [(prev) => [newItem, ...prev].slice(0, 50)]. *)
Definition historyUpdater (newItem : TranslationHistoryItem)
    (prev : list TranslationHistoryItem) : list TranslationHistoryItem :=
  slice 0 50 (newItem :: prev).

(** [handleTranslate]; [newId] and [now] are what [generateId()] and
    [Date.now()] return during the run. *)
Definition handleTranslate (ai : Remote) (newId : jsstring) (now : Z)
  : M unit :=
  fun w =>
    let inputText := inputText (app w) in
    let direction := app_direction (app w) in
    (if negb (JSString.truthy (JSString.trim inputText))
     then addToast newId (lit "Please enter text") error
     else
       setStatus LOADING ;;
       setOutputText JSString.empty ;;
       let stream := translateTextStream ai inputText direction in
       setStatus STREAMING ;;
       accumulatedText <- for_await (events stream) JSString.empty ;;
       match completion stream with
       | Return =>
           setStatus SUCCESS ;;
           let newItem := {|
             id := newId; original := inputText;
             translated := accumulatedText;
             timestamp := now; direction := direction
           |} in
           setHistory (historyUpdater newItem)
       | Throw _ =>
           emit EvConsoleError ;;
           setStatus ERROR ;;
           addToast newId (lit "Translation failed") error
       end) w.

(** [handleSwap] *)
Definition handleSwap : M unit :=
  fun w =>
    let inputText := inputText (app w) in
    let outputText := outputText (app w) in
    (setDirection (fun prev =>
        if direction_eqb prev HI_TO_EN then EN_TO_HI else HI_TO_EN) ;;
     let temp := inputText in
     setInputText outputText ;;
     setOutputText temp ;;
     if negb (JSString.truthy outputText) && negb (JSString.truthy temp)
     then setStatus IDLE
     else setStatus SUCCESS) w.

(** Running a handler on a state, with an empty trace. *)
Definition run {A : Type} (m : M A) (st : AppState) : World :=
  snd (m {| app := st; trace := [] |}).

(** ** The application with its storage *)

Record Browser := {
  ui : AppState;
  localStorage : LocalStorage
}.

(** First visit: nothing stored yet. *)
Definition initialBrowser : Browser :=
  {| ui := initialState; localStorage := None |}.

(** [loadData], the effect run on mount. *)
Definition loadData (b : Browser) : Browser :=
  let data := storageService.getData (localStorage b) in
  let st := ui b in
  let st :=
    match data_history data with
    | Some h => with_history h st
    | None => st
    end in
  let st :=
    match data_scripts data with
    | Some ss => with_scripts ss st
    | None => st
    end in
  {| ui := st; localStorage := localStorage b |}.

(** The effect on [history]:
    [if (history.length > 0) storageService.saveData({ history })]. *)
Definition historyEffect (b : Browser) : Browser :=
  let history := history (ui b) in
  if Nat.ltb 0 (length history)
  then {| ui := ui b;
          localStorage :=
            storageService.saveData
              {| data_scripts := None; data_history := Some history |}
              (localStorage b) |}
  else b.

(** The trash button of the history panel:
    [setHistory([]); storageService.saveData({ history: [] })]. *)
Definition clearHistory (b : Browser) : Browser :=
  {| ui := with_history [] (ui b);
     localStorage :=
       storageService.saveData
         {| data_scripts := None; data_history := Some [] |}
         (localStorage b) |}.

(** [saveScript] of [App]. *)
Definition saveScript (updatedScript : Script) (b : Browser) : Browser :=
  let prev := scripts (ui b) in
  let next :=
    match storageService.findIndex (script_id updatedScript) prev with
    | Some idx => storageService.assign prev idx updatedScript
    | None => updatedScript :: prev
    end in
  {| ui := with_scripts next (ui b);
     localStorage := storageService.saveScript updatedScript (localStorage b) |}.

(** [deleteScript] of [App], once the user has confirmed. *)
Definition deleteScript (scriptId newId : jsstring) (b : Browser) : Browser :=
  let st := ui b in
  let st :=
    with_scripts
      (filter (fun s => negb (JSString.eqb (script_id s) scriptId)) (scripts st))
      st in
  {| ui := app (run (addToast newId (lit "Script deleted") info) st);
     localStorage := storageService.deleteScript scriptId (localStorage b) |}.

(** What can happen to the application. *)
Inductive Action :=
| Reload
| Mount
| HistoryEffect
| Translate (ai : Remote) (newId : jsstring) (now : Z)
| Swap
| TypeInput (txt : jsstring)
| PickHistory (index : nat)
| ClearHistory
| SaveScript (s : Script)
| DeleteScript (scriptId newId : jsstring).

Definition on_ui (f : AppState -> AppState) (b : Browser) : Browser :=
  {| ui := f (ui b); localStorage := localStorage b |}.

Definition perform (a : Action) (b : Browser) : Browser :=
  match a with
  | Reload => {| ui := initialState; localStorage := localStorage b |}
  | Mount => loadData b
  | HistoryEffect => historyEffect b
  | Translate ai newId now =>
      on_ui (fun st => app (run (handleTranslate ai newId now) st)) b
  | Swap => on_ui (fun st => app (run handleSwap st)) b
  | TypeInput txt => on_ui (with_inputText txt) b
  | PickHistory index =>
      match nth_error (history (ui b)) index with
      | Some item =>
          on_ui (fun st =>
                   with_outputText (translated item)
                     (with_inputText (original item) st)) b
      | None => b
      end
  | ClearHistory => clearHistory b
  | SaveScript s => saveScript s b
  | DeleteScript scriptId newId => deleteScript scriptId newId b
  end.

(** The application after a sequence of actions, from the first visit. *)
Definition exec (actions : list Action) : Browser :=
  fold_left (fun b a => perform a b) actions initialBrowser.

(** The history as [localStorage] has it. *)
Definition storedHistory (b : Browser) : list TranslationHistoryItem :=
  match data_history (storageService.getData (localStorage b)) with
  | Some h => h
  | None => []
  end.

(** ** Reading traces *)

Fixpoint statuses (tr : list Event) : list TranslationStatus :=
  match tr with
  | [] => []
  | EvSetStatus s :: rest => s :: statuses rest
  | _ :: rest => statuses rest
  end.

Fixpoint published (tr : list Event) : list jsstring :=
  match tr with
  | [] => []
  | EvSetOutputText txt :: rest => txt :: published rest
  | _ :: rest => published rest
  end.

Fixpoint historyWrites (tr : list Event) : list (list TranslationHistoryItem) :=
  match tr with
  | [] => []
  | EvSetHistory h :: rest => h :: historyWrites rest
  | _ :: rest => historyWrites rest
  end.

Fixpoint remoteCalls (tr : list Event) : list GenerateContentParameters :=
  match tr with
  | [] => []
  | EvRemoteCall p :: rest => p :: remoteCalls rest
  | _ :: rest => remoteCalls rest
  end.

Fixpoint arrived (tr : list Event) : list jsstring :=
  match tr with
  | [] => []
  | EvFragment f :: rest => f :: arrived rest
  | _ :: rest => arrived rest
  end.

Fixpoint shown (tr : list Event) : list ToastMessage :=
  match tr with
  | [] => []
  | EvToast t :: rest => t :: shown rest
  | _ :: rest => shown rest
  end.

(** Every [setStatus(STREAMING)] of the trace comes after the arrival of a
    fragment; [seen] tells whether one has arrived already. *)
Fixpoint streamingFollowsFragment (seen : bool) (tr : list Event) : bool :=
  match tr with
  | [] => true
  | EvFragment _ :: rest => streamingFollowsFragment true rest
  | EvSetStatus STREAMING :: rest =>
      seen && streamingFollowsFragment seen rest
  | _ :: rest => streamingFollowsFragment seen rest
  end.

(** The consumer stays in [LOADING] until the first fragment arrives: in the
    trace of a run, [STREAMING] is only ever set once a fragment has
    arrived. *)
Definition streamingOnFirstFragment (tr : list Event) : Prop :=
  streamingFollowsFragment false tr = true.

(** ** Auxiliary definitions of the statements *)

(** The partial results published while the fragments [fs] arrive, starting
    from the accumulated text [acc]. *)
Fixpoint partials (acc : jsstring) (fs : list jsstring) : list jsstring :=
  match fs with
  | [] => []
  | f :: rest => (acc ++ f) :: partials (acc ++ f) rest
  end.

(** What the [for await] loop emits on a stream, from the accumulated text
    [acc]. *)
Fixpoint consumerTrace (stream : list GenEvent) (acc : jsstring)
  : list Event :=
  match stream with
  | [] => []
  | GenCall params :: rest => EvRemoteCall params :: consumerTrace rest acc
  | GenConsoleError :: rest => EvConsoleError :: consumerTrace rest acc
  | GenYield chunk :: rest =>
      EvFragment chunk :: EvSetOutputText (acc ++ chunk)
        :: consumerTrace rest (acc ++ chunk)
  end.

(** The record [handleTranslate] builds on success, from the state it was
    called in and the fragments it has consumed. *)
Definition newItemOf (ai : Remote) (newId : jsstring) (now : Z)
    (st : AppState) : TranslationHistoryItem :=
  let stream := translateTextStream ai (inputText st) (app_direction st) in
  {| id := newId; original := inputText st;
     translated := concat (fragments (events stream));
     timestamp := now; direction := app_direction st |}.

(** The error toast [handleTranslate] shows. *)
Definition toastOf (newId : jsstring) (msg : jsstring) : ToastMessage :=
  {| toast_id := newId; message := msg; type := error |}.

(** What [handleTranslate] does first on a non-blank text. *)
Definition opening : list Event :=
  [EvSetStatus LOADING; EvSetOutputText JSString.empty;
   EvSetStatus STREAMING].

(** The bound on the history shown and on the history stored. *)
Definition bounded (b : Browser) : Prop :=
  length (history (ui b)) <= 50 /\ length (storedHistory b) <= 50.

(** ** App.tsx: helper functions and callbacks *)

(** [s.split(/\s+/)]: the pieces of [s] between its runs of white space
    ([\s] is the white space of [trim]). [inSeparator] tells that the run of
    white space being read has already closed a piece, and [piece] is the
    piece being read. A leading or trailing run leaves an empty piece. *)
Fixpoint splitWhiteSpace (inSeparator : bool) (piece s : jsstring)
  : list jsstring :=
  match s with
  | [] => [piece]
  | c :: rest =>
      if JSString.isWhiteSpace c
      then
        if inSeparator then splitWhiteSpace true piece rest
        else piece :: splitWhiteSpace true [] rest
      else splitWhiteSpace false (piece ++ [c]) rest
  end.

(** [getWordCount] *)
Definition getWordCount (text : jsstring) : nat :=
  if JSString.truthy (JSString.trim text)
  then length (splitWhiteSpace false [] (JSString.trim text))
  else 0.

(** The callback [addToast] hands to [setTimeout]:
    [setToasts((prev) => prev.filter((t) => t.id !== id))]. *)
Definition expireToast (id : jsstring) (st : AppState) : AppState :=
  with_toasts
    (filter (fun t => negb (JSString.eqb (toast_id t) id)) (toasts st)) st.

(** [isProcessing], which disables the translate button. *)
Definition isProcessing (st : AppState) : bool :=
  match status st with
  | LOADING | STREAMING => true
  | _ => false
  end.

(** ** Auxiliary definitions of the further statements *)

(** The number of words of [s]: the maximal runs of code units that are not
    white space; [inWord] tells that such a run is being read. *)
Fixpoint wordsFrom (inWord : bool) (s : jsstring) : nat :=
  match s with
  | [] => 0
  | c :: rest =>
      if JSString.isWhiteSpace c then wordsFrom false rest
      else (if inWord then 0 else 1) + wordsFrom true rest
  end.

(** The number of runs of white space that start in [s]. *)
Fixpoint separatorsFrom (inSeparator : bool) (s : jsstring) : nat :=
  match s with
  | [] => 0
  | c :: rest =>
      if JSString.isWhiteSpace c
      then (if inSeparator then 0 else 1) + separatorsFrom true rest
      else separatorsFrom false rest
  end.

(** Whether reading [s] ends inside a word. *)
Fixpoint endsInWord (inWord : bool) (s : jsstring) : bool :=
  match s with
  | [] => inWord
  | c :: rest => endsInWord (negb (JSString.isWhiteSpace c)) rest
  end.

(** The text of a chunk, empty when absent. *)
Definition chunkText (chunk : Chunk) : jsstring :=
  match text chunk with
  | Some txt => txt
  | None => JSString.empty
  end.

(** The scripts a storage cell holds, and the script it has for an id. *)
Definition scriptsIn (localStorage : LocalStorage) : list Script :=
  storageService.scripts_or_empty (storageService.getData localStorage).

Definition lookupScript (scriptId : jsstring) (scripts : list Script)
  : option Script :=
  find (fun s => JSString.eqb (script_id s) scriptId) scripts.

(** The list [saveScript] of the storage service stores for a script and
    the list it has read. *)
Definition upserted (s : Script) (l : list Script) : list Script :=
  match storageService.findIndex (script_id s) l with
  | Some index => storageService.assign l index s
  | None => s :: l
  end.

(** The script list of the application is the stored one. *)
Definition inSync (b : Browser) : Prop :=
  data_scripts (storageService.getData (localStorage b))
  = Some (scripts (ui b)).

(** The ids are pairwise distinct, in the application and in storage. *)
Definition distinctIds (b : Browser) : Prop :=
  NoDup (map script_id (scripts (ui b)))
  /\ NoDup (map script_id (scriptsIn (localStorage b))).

(** Every record of the history, shown or stored, is of a request whose
    text was not blank. *)
Definition requestsNotBlank (b : Browser) : Prop :=
  Forall (fun item => JSString.blank (original item) = false)
    (history (ui b))
  /\ Forall (fun item => JSString.blank (original item) = false)
       (storedHistory b).

(** [a] is not a reload of the page. *)
Definition stays (a : Action) : bool :=
  match a with
  | Reload => false
  | _ => true
  end.

(** The status [handleSwap] leaves for an input and an output text. *)
Definition settled (st : AppState) : TranslationStatus :=
  if negb (JSString.truthy (outputText st))
     && negb (JSString.truthy (inputText st))
  then IDLE else SUCCESS.

(** * Properties *)

(** ** Strings *)

Module JSStringFacts.
Import JSString.

Lemma eqb_eq (a b : t) : eqb a b = true <-> a = b.
Proof.
  revert b; induction a as [|x a IH]; intros [|y b]; simpl;
    try (split; [discriminate | congruence]); [tauto|].
  rewrite andb_true_iff, N.eqb_eq, IH.
  split; [intros [-> ->]; reflexivity | intros [= -> ->]; auto].
Qed.

Lemma eqb_empty (s : t) : eqb s empty = negb (truthy s).
Proof. destruct s; reflexivity. Qed.

Lemma trimStart_blank (s : t) : blank s = true -> trimStart s = [].
Proof.
  induction s as [|c s IH]; simpl; [reflexivity|].
  destruct (isWhiteSpace c); simpl; [exact IH | discriminate].
Qed.

(** What [trimStart] leaves is empty or starts with a code unit that is not
    white space. *)
Lemma trimStart_head (s : t) :
  trimStart s = [] \/
  exists c rest, trimStart s = c :: rest /\ isWhiteSpace c = false.
Proof.
  induction s as [|c s IH]; simpl; [left; reflexivity|].
  destruct (isWhiteSpace c) eqn:E; [exact IH|].
  right; exists c, s; auto.
Qed.

Lemma trimStart_empty_blank (s : t) : trimStart s = [] -> blank s = true.
Proof.
  induction s as [|c s IH]; simpl; [reflexivity|].
  destruct (isWhiteSpace c); simpl; [exact IH | discriminate].
Qed.

Lemma blank_app (a b : t) : blank (a ++ b) = blank a && blank b.
Proof. apply forallb_app. Qed.

Lemma blank_rev (s : t) : blank (rev s) = blank s.
Proof.
  induction s as [|c s IH]; simpl; [reflexivity|].
  rewrite blank_app, IH; simpl. rewrite andb_true_r. apply andb_comm.
Qed.

(** [trim] gives the empty string exactly on blank strings. *)
Lemma trim_empty_iff (s : t) : trim s = [] <-> blank s = true.
Proof.
  unfold trim, trimEnd. split.
  - intros H.
    assert (E : trimStart (rev (trimStart s)) = []).
    { destruct (trimStart (rev (trimStart s))) as [|c r]; [reflexivity|].
      simpl in H. apply app_eq_nil in H as [_ H]. discriminate. }
    apply trimStart_empty_blank in E. rewrite blank_rev in E.
    destruct (trimStart_head s) as [H0 | (c & rest & H0 & Hc)].
    + apply trimStart_empty_blank, H0.
    + rewrite H0 in E. simpl in E. rewrite Hc in E. discriminate.
  - intros H. rewrite (trimStart_blank s H). reflexivity.
Qed.

Lemma truthy_trim (s : t) : truthy (trim s) = negb (blank s).
Proof.
  destruct (blank s) eqn:B.
  - apply trim_empty_iff in B. rewrite B. reflexivity.
  - destruct (trim s) eqn:T; [|reflexivity].
    apply trim_empty_iff in T. congruence.
Qed.

(** The guard of [translateTextStream]: [!text || text.trim() === ""]. *)
Lemma guard_blank (s : t) :
  negb (truthy s) || eqb (trim s) empty = blank s.
Proof.
  rewrite eqb_empty, truthy_trim, negb_involutive.
  destruct s; reflexivity || apply orb_false_l.
Qed.

End JSStringFacts.

(** ** The translation source *)

Section TranslationSource.

Variable ai : Remote.

Lemma fragments_app (a b : list GenEvent) :
  fragments (a ++ b) = fragments a ++ fragments b.
Proof.
  induction a as [|[p|f|] a IH]; simpl; rewrite ?IH; reflexivity.
Qed.

Lemma calls_app (a b : list GenEvent) :
  calls (a ++ b) = calls a ++ calls b.
Proof.
  induction a as [|[p|f|] a IH]; simpl; rewrite ?IH; reflexivity.
Qed.

Lemma calls_yield_chunks (response : list Chunk) :
  calls (yield_chunks response) = [].
Proof.
  induction response as [|[[txt|]] r IH]; simpl; auto.
  destruct (JSString.truthy txt); simpl; auto.
Qed.

Lemma fragments_yield_chunks_truthy (response : list Chunk) :
  Forall (fun f => JSString.truthy f = true)
    (fragments (yield_chunks response)).
Proof.
  induction response as [|[[txt|]] r IH]; simpl; auto.
  destruct (JSString.truthy txt) eqn:E; simpl; auto.
Qed.

Lemma translateTextStream_blank_eq text direction :
  JSString.blank text = true ->
  translateTextStream ai text direction
  = {| events := []; completion := Return |}.
Proof.
  intros B. unfold translateTextStream.
  rewrite JSStringFacts.guard_blank, B. reflexivity.
Qed.

(** For a non-blank text the generator issues exactly one call, first. *)
Lemma translateTextStream_nonblank text direction :
  JSString.blank text = false ->
  exists rest,
    events (translateTextStream ai text direction)
    = GenCall (request text direction) :: rest
    /\ calls rest = [].
Proof.
  intros B. unfold translateTextStream.
  rewrite JSStringFacts.guard_blank, B.
  replace (if direction_eqb direction HI_TO_EN
           then SYSTEM_INSTRUCTION_HI_TO_EN
           else SYSTEM_INSTRUCTION_EN_TO_HI)
    with (systemInstruction (request text direction))
    by (destruct direction; reflexivity).
  change {| model := lit "gemini-2.5-flash"; contents := text;
            systemInstruction := systemInstruction (request text direction);
            temperature := (4 # 10)%Q |}
    with (request text direction).
  destruct (ai (request text direction)) as [|response [|]]; simpl;
    eexists; (split; [reflexivity|]);
    rewrite ?calls_app, ?calls_yield_chunks; reflexivity.
Qed.

Lemma translateTextStream_calls text direction :
  JSString.blank text = false ->
  calls (events (translateTextStream ai text direction))
  = [request text direction].
Proof.
  intros B.
  destruct (translateTextStream_nonblank text direction B) as (r & -> & Hr).
  simpl. rewrite Hr. reflexivity.
Qed.

(** A generator that throws was given a non-blank text. *)
Lemma translateTextStream_throw_nonblank text direction msg :
  completion (translateTextStream ai text direction) = Throw msg ->
  JSString.blank text = false.
Proof.
  intros H. destruct (JSString.blank text) eqn:B; [|reflexivity].
  rewrite (translateTextStream_blank_eq text direction B) in H.
  discriminate.
Qed.

End TranslationSource.

Lemma profiles_differ :
  SYSTEM_INSTRUCTION_HI_TO_EN <> SYSTEM_INSTRUCTION_EN_TO_HI.
Proof.
  intros H. apply (f_equal (@length N)) in H.
  vm_compute in H. discriminate.
Qed.

(** C5. For an empty or all-whitespace text, and either direction,
    [translateTextStream] is immediately over: it does nothing at all, so it
    yields no fragment and issues no call to the remote service, and it
    returns rather than throws. *)
Theorem translateTextStream_blank_is_empty
    (ai : Remote) (text : jsstring) (direction : TranslationDirection) :
  JSString.blank text = true ->
  let stream := translateTextStream ai text direction in
  events stream = []
  /\ fragments (events stream) = []
  /\ calls (events stream) = []
  /\ completion stream = Return.
Proof.
  intros B stream. subst stream.
  rewrite (translateTextStream_blank_eq ai text direction B).
  repeat split.
Qed.

Lemma translateTextStream_blank_is_empty_witness :
  let ai : Remote := fun _ => Streamed [ {| text := Some (lit "Hello") |} ] EndOfStream in
  let text := [32; 9; 10; 160; 8195]%N in
  JSString.blank text = true
  /\ events (translateTextStream ai text EN_TO_HI) = []
  /\ completion (translateTextStream ai text EN_TO_HI) = Return.
Proof.
  intros ai text.
  split; [reflexivity|].
  pose proof (translateTextStream_blank_is_empty ai text EN_TO_HI eq_refl)
    as (H1 & _ & _ & H4).
  split; [exact H1 | exact H4].
Defined.

(** C8. For one and the same non-blank text, the system instruction passed to
    the remote service under [HI_TO_EN] is the fixed [HI_TO_EN] profile, the
    one passed under [EN_TO_HI] is the fixed [EN_TO_HI] profile, whatever the
    text and the service, and the two profiles differ. *)
Theorem direction_selects_profile
    (ai ai' : Remote) (text : jsstring) :
  JSString.blank text = false ->
  map systemInstruction (calls (events (translateTextStream ai text HI_TO_EN)))
  = [SYSTEM_INSTRUCTION_HI_TO_EN]
  /\ map systemInstruction
       (calls (events (translateTextStream ai' text EN_TO_HI)))
     = [SYSTEM_INSTRUCTION_EN_TO_HI]
  /\ SYSTEM_INSTRUCTION_HI_TO_EN <> SYSTEM_INSTRUCTION_EN_TO_HI.
Proof.
  intros B. rewrite !translateTextStream_calls by exact B.
  repeat split. exact profiles_differ.
Qed.

Lemma direction_selects_profile_witness :
  let ai : Remote := fun _ => Rejected in
  let text := lit "Kya haal hai" in
  JSString.blank text = false
  /\ map systemInstruction
       (calls (events (translateTextStream ai text HI_TO_EN)))
     <> map systemInstruction
          (calls (events (translateTextStream ai text EN_TO_HI))).
Proof.
  intros ai text.
  split; [reflexivity|].
  destruct (direction_selects_profile ai ai text eq_refl) as (H1 & H2 & H3).
  rewrite H1, H2. intros H. apply H3.
  exact (f_equal (fun l => hd JSString.empty l) H).
Defined.

(** C10. Every fragment [translateTextStream] yields is a non-empty string:
    a chunk whose [text] is absent or empty yields nothing. *)
Theorem translateTextStream_fragments_nonempty
    (ai : Remote) (text : jsstring) (direction : TranslationDirection) :
  Forall (fun fragment => fragment <> JSString.empty)
    (fragments (events (translateTextStream ai text direction))).
Proof.
  assert (T : Forall (fun f => JSString.truthy f = true)
                (fragments (events (translateTextStream ai text direction)))).
  { unfold translateTextStream.
    destruct (negb (JSString.truthy text)
              || JSString.eqb (JSString.trim text) JSString.empty);
      [constructor|].
    destruct (ai _) as [|response [|]]; simpl;
      rewrite ?fragments_app; simpl; rewrite ?app_nil_r;
      try apply fragments_yield_chunks_truthy; constructor. }
  eapply Forall_impl; [|exact T].
  intros f Hf ->. discriminate.
Qed.

(** ** Traces *)

Ltac by_trace_induction :=
  let a := fresh "a" in
  let e := fresh "e" in
  let IH := fresh "IH" in
  intros a; induction a as [|e a IH]; intros; simpl;
  [reflexivity | destruct e; simpl; rewrite ?IH; reflexivity].

Lemma statuses_app : forall a b, statuses (a ++ b) = statuses a ++ statuses b.
Proof. by_trace_induction. Qed.

Lemma published_app :
  forall a b, published (a ++ b) = published a ++ published b.
Proof. by_trace_induction. Qed.

Lemma historyWrites_app :
  forall a b, historyWrites (a ++ b) = historyWrites a ++ historyWrites b.
Proof. by_trace_induction. Qed.

Lemma remoteCalls_app :
  forall a b, remoteCalls (a ++ b) = remoteCalls a ++ remoteCalls b.
Proof. by_trace_induction. Qed.

Lemma arrived_app : forall a b, arrived (a ++ b) = arrived a ++ arrived b.
Proof. by_trace_induction. Qed.

Lemma shown_app : forall a b, shown (a ++ b) = shown a ++ shown b.
Proof. by_trace_induction. Qed.

Create Rewrite HintDb trace.

#[local] Hint Rewrite statuses_app published_app historyWrites_app
  remoteCalls_app arrived_app shown_app app_nil_r : trace.

(** ** The consuming loop *)

Lemma last_partials (fs : list jsstring) :
  forall acc d, last (acc :: partials acc fs) d = acc ++ concat fs.
Proof.
  induction fs as [|f fs IH]; intros acc d.
  - simpl. now rewrite app_nil_r.
  - change (last (acc :: partials acc (f :: fs)) d)
      with (last ((acc ++ f) :: partials (acc ++ f) fs) d).
    rewrite IH. simpl. now rewrite app_assoc.
Qed.

Lemma for_await_spec (stream : list GenEvent) :
  forall acc w,
    for_await stream acc w
    = (acc ++ concat (fragments stream),
       {| app :=
            match fragments stream with
            | [] => app w
            | _ :: _ =>
                with_outputText (acc ++ concat (fragments stream)) (app w)
            end;
          trace := trace w ++ consumerTrace stream acc |}).
Proof.
  induction stream as [|[p|f|] rest IH]; intros acc [st tr].
  - simpl. now rewrite !app_nil_r.
  - simpl. unfold bind, emit; simpl. rewrite IH; simpl.
    now rewrite <- app_assoc.
  - simpl. unfold bind, setOutputText, bind, emit, update; simpl.
    rewrite IH; simpl. rewrite <- ?app_assoc; simpl.
    destruct (fragments rest); simpl; rewrite ?app_nil_r; reflexivity.
  - simpl. unfold bind, emit; simpl. rewrite IH; simpl.
    now rewrite <- app_assoc.
Qed.

Lemma statuses_consumerTrace stream :
  forall acc, statuses (consumerTrace stream acc) = [].
Proof. induction stream as [|[p|f|] rest IH]; intros; simpl; auto. Qed.

Lemma historyWrites_consumerTrace stream :
  forall acc, historyWrites (consumerTrace stream acc) = [].
Proof. induction stream as [|[p|f|] rest IH]; intros; simpl; auto. Qed.

Lemma shown_consumerTrace stream :
  forall acc, shown (consumerTrace stream acc) = [].
Proof. induction stream as [|[p|f|] rest IH]; intros; simpl; auto. Qed.

Lemma remoteCalls_consumerTrace stream :
  forall acc, remoteCalls (consumerTrace stream acc) = calls stream.
Proof.
  induction stream as [|[p|f|] rest IH]; intros; simpl; rewrite ?IH; auto.
Qed.

Lemma arrived_consumerTrace stream :
  forall acc, arrived (consumerTrace stream acc) = fragments stream.
Proof.
  induction stream as [|[p|f|] rest IH]; intros; simpl; rewrite ?IH; auto.
Qed.

Lemma published_consumerTrace stream :
  forall acc,
    published (consumerTrace stream acc) = partials acc (fragments stream).
Proof.
  induction stream as [|[p|f|] rest IH]; intros; simpl; rewrite ?IH; auto.
Qed.

#[local] Hint Rewrite statuses_consumerTrace historyWrites_consumerTrace
  shown_consumerTrace remoteCalls_consumerTrace arrived_consumerTrace
  published_consumerTrace : trace.

(** ** [handleTranslate], run to its end *)

Section HandleTranslate.

Variable ai : Remote.
Variable newId : jsstring.
Variable now : Z.
Variable st : AppState.

Let stream := translateTextStream ai (inputText st) (app_direction st).
Let result := concat (fragments (events stream)).

Lemma handleTranslate_blank_run :
  JSString.blank (inputText st) = true ->
  run (handleTranslate ai newId now) st
  = {| app :=
         with_toasts (toasts st ++ [toastOf newId (lit "Please enter text")]) st;
       trace := [EvToast (toastOf newId (lit "Please enter text"))] |}.
Proof.
  intros B. unfold run, handleTranslate; simpl.
  rewrite JSStringFacts.truthy_trim, B. reflexivity.
Qed.

Lemma handleTranslate_nonblank_run :
  JSString.blank (inputText st) = false ->
  run (handleTranslate ai newId now) st
  = match completion stream with
    | Return =>
        {| app :=
             with_history (historyUpdater (newItemOf ai newId now st) (history st))
               (with_status SUCCESS (with_outputText result st));
           trace :=
             opening ++ consumerTrace (events stream) JSString.empty
             ++ [EvSetStatus SUCCESS;
                 EvSetHistory (historyUpdater (newItemOf ai newId now st) (history st))] |}
    | Throw _ =>
        {| app :=
             with_toasts (toasts st ++ [toastOf newId (lit "Translation failed")])
               (with_status ERROR (with_outputText result st));
           trace :=
             opening ++ consumerTrace (events stream) JSString.empty
             ++ [EvConsoleError; EvSetStatus ERROR;
                 EvToast (toastOf newId (lit "Translation failed"))] |}
    end.
Proof.
  intros B. unfold run, handleTranslate; simpl.
  rewrite JSStringFacts.truthy_trim, B; simpl.
  unfold bind at 1. unfold setStatus at 1, bind at 1, emit at 1, update at 1.
  simpl. unfold bind at 1.
  unfold setOutputText at 1, bind at 1, emit at 1, update at 1. simpl.
  unfold bind at 1. unfold setStatus at 1, bind at 1, emit at 1, update at 1.
  simpl. unfold bind at 1. rewrite for_await_spec. simpl.
  unfold newItemOf, toastOf, opening. cbv zeta. fold stream. fold result.
  destruct (completion stream);
    unfold bind, setStatus, setHistory, addToast, bind, emit, update; simpl;
    rewrite <- ?app_assoc; simpl;
    destruct st; subst result; destruct (fragments (events stream));
    reflexivity.
Qed.

End HandleTranslate.

(** C1. For a non-blank input text, when the translation source yields one
    or more fragments and returns, [handleTranslate] ends in [SUCCESS]
    having gone through [LOADING] and [STREAMING]; the output text, which is
    also the last text published, is the concatenation of the fragments in
    their order of arrival; and the history is written exactly once, with
    one new record made of the request text and that accumulated text put
    at its head. *)
Theorem handleTranslate_success
    (ai : Remote) (newId : jsstring) (now : Z) (st : AppState) :
  let stream := translateTextStream ai (inputText st) (app_direction st) in
  let fs := fragments (events stream) in
  JSString.blank (inputText st) = false ->
  1 <= length fs ->
  completion stream = Return ->
  let w := run (handleTranslate ai newId now) st in
  let newItem :=
    {| id := newId; original := inputText st; translated := concat fs;
       timestamp := now; direction := app_direction st |} in
  status (app w) = SUCCESS
  /\ statuses (trace w) = [LOADING; STREAMING; SUCCESS]
  /\ arrived (trace w) = fs
  /\ outputText (app w) = concat fs
  /\ last (published (trace w)) JSString.empty = concat fs
  /\ historyWrites (trace w) = [historyUpdater newItem (history st)]
  /\ history (app w) = newItem :: firstn 49 (history st).
Proof.
  intros stream fs B _ C w newItem. subst w.
  rewrite (handleTranslate_nonblank_run ai newId now st B).
  fold stream. rewrite C. unfold opening. simpl.
  autorewrite with trace. simpl.
  repeat split.
  rewrite ?app_nil_r.
  exact (last_partials fs JSString.empty JSString.empty).
Qed.

Lemma handleTranslate_success_witness :
  let ai : Remote := fun _ =>
    Streamed [ {| text := Some (lit "Hel") |}; {| text := None |};
               {| text := Some (lit "lo") |} ] EndOfStream in
  let st := with_inputText (lit "namaste") initialState in
  let w := run (handleTranslate ai (lit "k3x9") 1700000000000) st in
  status (app w) = SUCCESS
  /\ outputText (app w) = lit "Hello"
  /\ map original (history (app w)) = [lit "namaste"]
  /\ map translated (history (app w)) = [lit "Hello"].
Proof.
  intros ai st w.
  destruct (handleTranslate_success ai (lit "k3x9") 1700000000000 st)
    as (H1 & _ & _ & H4 & _ & _ & H7).
  - reflexivity.
  - vm_compute. lia.
  - reflexivity.
  - subst w. rewrite H7. repeat split; assumption.
Defined.

(** C2. When the translation source throws after having yielded some
    fragments (none, [f1] and [f2], or any others), [handleTranslate] ends in
    [ERROR]; the output text, which is also the last text published, is the
    concatenation of the fragments yielded before the failure; and the
    history is neither written nor changed. *)
Theorem handleTranslate_failure
    (ai : Remote) (newId : jsstring) (now : Z) (st : AppState)
    (msg : jsstring) :
  let stream := translateTextStream ai (inputText st) (app_direction st) in
  let fs := fragments (events stream) in
  completion stream = Throw msg ->
  let w := run (handleTranslate ai newId now) st in
  status (app w) = ERROR
  /\ arrived (trace w) = fs
  /\ outputText (app w) = concat fs
  /\ last (published (trace w)) JSString.empty = concat fs
  /\ historyWrites (trace w) = []
  /\ history (app w) = history st.
Proof.
  intros stream fs C w. subst w.
  pose proof (translateTextStream_throw_nonblank _ _ _ C) as B.
  rewrite (handleTranslate_nonblank_run ai newId now st B).
  fold stream. rewrite C. unfold opening. simpl.
  autorewrite with trace. simpl.
  repeat split.
  rewrite ?app_nil_r.
  exact (last_partials fs JSString.empty JSString.empty).
Qed.

Lemma handleTranslate_failure_witness :
  let f1 := lit "Hello, " in
  let f2 := lit "everyone" in
  let ai : Remote := fun _ =>
    Streamed [ {| text := Some f1 |}; {| text := Some f2 |} ] StreamError in
  let st := with_inputText (lit "namaste doston") initialState in
  let w := run (handleTranslate ai (lit "k3x9") 1700000000000) st in
  status (app w) = ERROR
  /\ outputText (app w) = f1 ++ f2
  /\ history (app w) = [].
Proof.
  intros f1 f2 ai st w.
  destruct (handleTranslate_failure ai (lit "k3x9") 1700000000000 st
              (msg := lit "Connection interrupted. Please try again."))
    as (H1 & _ & H3 & _ & _ & H6).
  - reflexivity.
  - repeat split; assumption.
Defined.

(** C4. For a blank (empty or all-whitespace) input text, [handleTranslate]
    issues no call to the remote service, shows the error toast
    "Please enter text", and sets no status: the status, [IDLE] before any
    translation, is what it was, as are the output text and the history. *)
Theorem handleTranslate_blank
    (ai : Remote) (newId : jsstring) (now : Z) (st : AppState) :
  JSString.blank (inputText st) = true ->
  let w := run (handleTranslate ai newId now) st in
  let toast :=
    {| toast_id := newId; message := lit "Please enter text";
       type := error |} in
  remoteCalls (trace w) = []
  /\ trace w = [EvToast toast]
  /\ toasts (app w) = toasts st ++ [toast]
  /\ status (app w) = status st
  /\ inputText (app w) = inputText st
  /\ outputText (app w) = outputText st
  /\ history (app w) = history st.
Proof.
  intros B w toast. subst w.
  rewrite (handleTranslate_blank_run ai newId now st B).
  repeat split.
Qed.

Lemma handleTranslate_blank_witness :
  let ai : Remote := fun _ =>
    Streamed [ {| text := Some (lit "Hello") |} ] EndOfStream in
  let st := with_inputText [32; 10; 9; 12288]%N initialState in
  let w := run (handleTranslate ai (lit "k3x9") 1700000000000) st in
  remoteCalls (trace w) = [] /\ status (app w) = IDLE.
Proof.
  intros ai st w.
  destruct (handleTranslate_blank ai (lit "k3x9") 1700000000000 st)
    as (H1 & _ & _ & H4 & _).
  - reflexivity.
  - split; [exact H1 | exact H4].
Defined.

(** C7 fails: when the remote service rejects the call, no fragment ever
    arrives, and yet the run goes through [STREAMING] on its way from
    [LOADING] to [ERROR]. *)
Lemma streaming_set_without_fragment :
  let ai : Remote := fun _ => Rejected in
  let st := with_inputText (lit "namaste") initialState in
  let w := run (handleTranslate ai (lit "k3x9") 1700000000000) st in
  arrived (trace w) = []
  /\ statuses (trace w) = [LOADING; STREAMING; ERROR]
  /\ ~ streamingOnFirstFragment (trace w).
Proof.
  intros ai st w. repeat split. vm_compute. discriminate.
Qed.

(** C7, amended. In every run on a non-blank text, [handleTranslate] sets
    [LOADING], clears the output and sets [STREAMING] at once, as soon as
    the stream object exists: before the call to the remote service is
    issued and before any fragment arrives. [STREAMING] is not set again;
    the one status set afterwards is [SUCCESS] or [ERROR]. *)
Theorem streaming_set_before_request
    (ai : Remote) (newId : jsstring) (now : Z) (st : AppState) :
  JSString.blank (inputText st) = false ->
  let stream := translateTextStream ai (inputText st) (app_direction st) in
  let w := run (handleTranslate ai newId now) st in
  exists rest,
    trace w
    = EvSetStatus LOADING :: EvSetOutputText JSString.empty
        :: EvSetStatus STREAMING :: rest
    /\ remoteCalls rest = calls (events stream)
    /\ arrived rest = fragments (events stream)
    /\ (statuses rest = [SUCCESS] \/ statuses rest = [ERROR]).
Proof.
  intros B stream w. subst w.
  rewrite (handleTranslate_nonblank_run ai newId now st B).
  fold stream. unfold opening.
  destruct (completion stream); simpl; eexists;
    (split; [reflexivity|]);
    autorewrite with trace; simpl; autorewrite with trace; auto.
Qed.

Lemma streaming_set_before_request_witness :
  let ai : Remote := fun _ =>
    Streamed [ {| text := Some (lit "Hello") |} ] EndOfStream in
  let st := with_inputText (lit "namaste") initialState in
  let w := run (handleTranslate ai (lit "k3x9") 1700000000000) st in
  exists rest,
    trace w
    = EvSetStatus LOADING :: EvSetOutputText JSString.empty
        :: EvSetStatus STREAMING :: rest
    /\ arrived rest = [lit "Hello"].
Proof.
  intros ai st w.
  destruct (streaming_set_before_request ai (lit "k3x9") 1700000000000 st)
    as (rest & H1 & _ & H3 & _).
  - reflexivity.
  - exists rest. split; [exact H1 | exact H3].
Defined.

(** ** [handleSwap] *)

(** C9. Swapping twice gives back the input text, the output text and the
    direction: the toggle of the direction is an involution and the exchange
    of the two texts is its own inverse. *)
Theorem handleSwap_twice (st : AppState) :
  let st2 := app (run handleSwap (app (run handleSwap st))) in
  inputText st2 = inputText st
  /\ outputText st2 = outputText st
  /\ app_direction st2 = app_direction st.
Proof.
  destruct st as [i o d s h t sc]. unfold run, handleSwap; simpl.
  destruct d, o, i; simpl; repeat split.
Qed.

(** The status is not part of what a double swap gives back. *)
Example handleSwap_twice_status :
  let st := with_status ERROR initialState in
  status (app (run handleSwap (app (run handleSwap st)))) = IDLE.
Proof. reflexivity. Qed.

(** ** The storage service *)

(** [saveData] writes the fields it is given and keeps the others. *)
Lemma saveData_getData (data : AppData) (localStorage : LocalStorage) :
  storageService.getData (storageService.saveData data localStorage)
  = spread (storageService.getData localStorage) data.
Proof. reflexivity. Qed.

(** C6. Whatever is stored, after [saveData({scripts: [s]})] what [getData]
    returns has [scripts] equal to [[s]] and [history] equal to what
    [getData] returned for it before the save. *)
Theorem saveData_scripts_then_getData
    (localStorage : LocalStorage) (s : Script) :
  let before := storageService.getData localStorage in
  let after :=
    storageService.getData
      (storageService.saveData
         {| data_scripts := Some [s]; data_history := None |} localStorage) in
  data_scripts after = Some [s]
  /\ data_history after = data_history before.
Proof.
  intros before after. subst before after.
  rewrite saveData_getData. split; reflexivity.
Qed.

(** ** The history store *)

Lemma historyUpdater_cons newItem prev :
  historyUpdater newItem prev = newItem :: firstn 49 prev.
Proof. reflexivity. Qed.

Lemma historyUpdater_length newItem prev :
  length (historyUpdater newItem prev) <= 50.
Proof. rewrite historyUpdater_cons. cbn [length]. rewrite length_firstn. lia. Qed.

Lemma firstn_removelast {A : Type} (l : list A) (n : nat) :
  length l = S n -> firstn n l = removelast l.
Proof.
  revert n; induction l as [|x l IH]; intros n H; [discriminate|].
  destruct l as [|y l].
  - injection H as <-. reflexivity.
  - destruct n as [|n]; [discriminate|].
    change (x :: firstn n (y :: l) = x :: removelast (y :: l)).
    f_equal. apply IH. simpl in *. lia.
Qed.

(** At the cap, the updater drops the last record, the oldest, and nothing
    else. *)
Lemma historyUpdater_full newItem prev :
  length prev = 50 ->
  historyUpdater newItem prev = newItem :: removelast prev
  /\ length (historyUpdater newItem prev) = 50.
Proof.
  intros H. rewrite historyUpdater_cons. split.
  - f_equal. apply firstn_removelast. exact H.
  - cbn [length]. rewrite length_firstn. lia.
Qed.

(** What [handleTranslate] does to the history: nothing, or one update. *)
Lemma handleTranslate_history ai newId now st :
  let h := history (app (run (handleTranslate ai newId now) st)) in
  h = history st \/ h = historyUpdater (newItemOf ai newId now st) (history st).
Proof.
  destruct (JSString.blank (inputText st)) eqn:B; simpl.
  - rewrite handleTranslate_blank_run by exact B. left; reflexivity.
  - rewrite handleTranslate_nonblank_run by exact B.
    destruct (completion _); [right | left]; reflexivity.
Qed.

Lemma handleSwap_history st :
  history (app (run handleSwap st)) = history st.
Proof.
  unfold run, handleSwap; simpl.
  destruct (_ && _); reflexivity.
Qed.

Lemma bounded_initial : bounded initialBrowser.
Proof. split; simpl; lia. Qed.

Lemma bounded_perform (a : Action) (b : Browser) :
  bounded b -> bounded (perform a b).
Proof.
  intros [Hui Hst]. unfold bounded, storedHistory in *.
  destruct b as [st ls]; simpl in *.
  destruct a; simpl.
  - (* Reload *) split; [lia | exact Hst].
  - (* Mount *)
    unfold loadData; simpl.
    destruct (data_history (storageService.getData ls)) as [h|],
             (data_scripts (storageService.getData ls)) as [ss|];
      simpl; auto.
  - (* HistoryEffect *)
    unfold historyEffect; simpl.
    destruct (Nat.ltb 0 (length (history st))); simpl; auto.
  - (* Translate *)
    split; [|exact Hst].
    destruct (handleTranslate_history ai newId now st) as [-> | ->];
      [exact Hui | apply historyUpdater_length].
  - (* Swap *) rewrite handleSwap_history. auto.
  - (* TypeInput *) auto.
  - (* PickHistory *)
    destruct (nth_error (history st) index); simpl; auto.
  - (* ClearHistory *) split; simpl; lia.
  - (* SaveScript *) auto.
  - (* DeleteScript *) auto.
Qed.

Lemma bounded_fold (actions : list Action) :
  forall b, bounded b ->
    bounded (fold_left (fun b a => perform a b) actions b).
Proof.
  induction actions as [|a actions IH]; intros b H; simpl; [exact H|].
  apply IH, bounded_perform, H.
Qed.

(** C3. After any sequence of actions from the first visit, the history
    holds at most 50 records, in the application and in storage. The update
    that [handleTranslate] applies puts the new record at the head, keeps
    the earlier ones in their order after it, and when that makes more than
    50 drops exactly the last one, the oldest, so that 50 remain. *)
Theorem history_store_bounded
    (actions : list Action) (newItem : TranslationHistoryItem) :
  let b := exec actions in
  let prev := history (ui b) in
  let next := historyUpdater newItem prev in
  length prev <= 50
  /\ length (storedHistory b) <= 50
  /\ hd_error next = Some newItem
  /\ next = newItem :: firstn 49 prev
  /\ length next <= 50
  /\ (50 < length (newItem :: prev) ->
      next = newItem :: removelast prev /\ length next = 50).
Proof.
  intros b prev next.
  destruct (bounded_fold actions bounded_initial) as [Hui Hst].
  fold (exec actions) in Hui, Hst. fold b in Hui, Hst. fold prev in Hui.
  repeat split; try assumption; try apply historyUpdater_length;
    apply historyUpdater_full; simpl in *; lia.
Qed.

Lemma history_store_bounded_witness :
  let ai : Remote := fun _ =>
    Streamed [ {| text := Some (lit "Hello") |} ] EndOfStream in
  let actions :=
    TypeInput (lit "namaste") :: repeat (Translate ai (lit "k3x9") 7) 50 in
  let newItem :=
    {| id := lit "z0z0"; original := lit "phir milenge";
       translated := lit "See you again"; timestamp := 8;
       direction := HI_TO_EN |} in
  let prev := history (ui (exec actions)) in
  50 < length (newItem :: prev)
  /\ historyUpdater newItem prev = newItem :: removelast prev
  /\ length (historyUpdater newItem prev) = 50.
Proof.
  intros ai actions newItem prev.
  assert (H : 50 < length (newItem :: prev)) by (vm_compute; lia).
  split; [exact H|].
  destruct (history_store_bounded actions newItem) as (_ & _ & _ & _ & _ & K).
  exact (K H).
Defined.

(** * Further properties *)

(** ** Counting words *)

Section WordCount.
Import JSString.

Lemma trimStart_snoc (l : t) (c : N) :
  trimStart (l ++ [c])
  = if blank l then (if isWhiteSpace c then [] else [c])
    else trimStart l ++ [c].
Proof.
  induction l as [|x l IH]; simpl; [reflexivity|].
  destruct (isWhiteSpace x); simpl; [exact IH | reflexivity].
Qed.

(** [trimEnd], read from the front. *)
Lemma trimEnd_cons (c : N) (s : t) :
  trimEnd (c :: s)
  = if blank s then (if isWhiteSpace c then [] else [c])
    else c :: trimEnd s.
Proof.
  unfold trimEnd. simpl. rewrite trimStart_snoc, JSStringFacts.blank_rev.
  destruct (blank s); [destruct (isWhiteSpace c); reflexivity|].
  rewrite rev_app_distr. reflexivity.
Qed.

Lemma trimEnd_blank (s : t) : blank s = true -> trimEnd s = [].
Proof.
  intros B. unfold trimEnd.
  rewrite JSStringFacts.trimStart_blank; [reflexivity|].
  now rewrite JSStringFacts.blank_rev.
Qed.

Lemma wordsFrom_blank (s : t) :
  blank s = true -> forall b, wordsFrom b s = 0.
Proof.
  induction s as [|c s IH]; simpl; intros B b; [reflexivity|].
  apply andb_true_iff in B as [-> B]. now apply IH.
Qed.

Lemma wordsFrom_false_zero (s : t) :
  wordsFrom false s = 0 -> blank s = true.
Proof.
  induction s as [|c s IH]; simpl; [reflexivity|].
  destruct (isWhiteSpace c); simpl; [exact IH | discriminate].
Qed.

Lemma wordsFrom_trimStart (s : t) :
  wordsFrom false (trimStart s) = wordsFrom false s.
Proof.
  induction s as [|c s IH]; simpl; [reflexivity|].
  destruct (isWhiteSpace c) eqn:E; [exact IH|].
  simpl. rewrite E. reflexivity.
Qed.

Lemma wordsFrom_trimEnd (s : t) :
  forall b, wordsFrom b (trimEnd s) = wordsFrom b s.
Proof.
  induction s as [|c s IH]; intros b; [reflexivity|].
  rewrite trimEnd_cons.
  destruct (blank s) eqn:B.
  - simpl. destruct (isWhiteSpace c) eqn:E; simpl; rewrite ?E;
      rewrite wordsFrom_blank by exact B; reflexivity.
  - simpl. destruct (isWhiteSpace c); rewrite IH; reflexivity.
Qed.

Lemma wordsFrom_trim (s : t) : wordsFrom false (trim s) = wordsFrom false s.
Proof. unfold trim. now rewrite wordsFrom_trimEnd, wordsFrom_trimStart. Qed.

Lemma endsInWord_trimEnd (s : t) :
  forall b, trimEnd s <> [] -> endsInWord b (trimEnd s) = true.
Proof.
  induction s as [|c s IH]; intros b H; [now elim H|].
  rewrite trimEnd_cons in *.
  destruct (blank s) eqn:B.
  - destruct (isWhiteSpace c) eqn:E; [now elim H|].
    simpl. now rewrite E.
  - simpl. apply IH. intros K.
    assert (blank (rev (trimStart (rev s))) = true) by (unfold trimEnd in K; now rewrite K).
    unfold trimEnd in K. apply (f_equal (@rev N)) in K.
    rewrite rev_involutive in K. simpl in K.
    apply JSStringFacts.trimStart_empty_blank in K.
    rewrite JSStringFacts.blank_rev in K. congruence.
Qed.

Lemma length_splitWhiteSpace (s : t) :
  forall inSeparator piece,
    length (splitWhiteSpace inSeparator piece s)
    = 1 + separatorsFrom inSeparator s.
Proof.
  induction s as [|c s IH]; intros b piece; simpl; [reflexivity|].
  destruct (isWhiteSpace c); [destruct b|]; simpl; rewrite IH; reflexivity.
Qed.

(** Words and separators alternate. *)
Lemma separators_words (s : t) :
  separatorsFrom false s
  = wordsFrom true s + (if endsInWord true s then 0 else 1)
  /\ wordsFrom false s
     = separatorsFrom true s + (if endsInWord false s then 1 else 0).
Proof.
  induction s as [|c s [IH1 IH2]]; simpl; [auto|].
  destruct (isWhiteSpace c); simpl;
    destruct (endsInWord true s), (endsInWord false s); lia.
Qed.

Lemma getWordCount_words (text : t) :
  getWordCount text = wordsFrom false text.
Proof.
  unfold getWordCount. rewrite <- (wordsFrom_trim text).
  rewrite length_splitWhiteSpace.
  destruct (trim text) as [|c r] eqn:T; [reflexivity|].
  assert (E : endsInWord false (c :: r) = true).
  { rewrite <- T. unfold trim. apply endsInWord_trimEnd.
    fold (trim text). rewrite T. discriminate. }
  assert (C : isWhiteSpace c = false).
  { unfold trim in T.
    destruct (JSStringFacts.trimStart_head text) as [H | (x & y & H & Hx)];
      rewrite H in T; [discriminate|].
    rewrite trimEnd_cons in T.
    destruct (blank y); [rewrite Hx in T|]; now injection T as <- _. }
  simpl in *. rewrite C in *. simpl in *.
  destruct (separators_words r) as [-> _]. rewrite E. lia.
Qed.

Lemma wordsFrom_app (a b : t) :
  forall w, wordsFrom w (a ++ b) = wordsFrom w a + wordsFrom (endsInWord w a) b.
Proof.
  induction a as [|c a IH]; intros w; simpl; [reflexivity|].
  destruct (isWhiteSpace c); simpl; rewrite IH; lia.
Qed.

Lemma endsInWord_blank (s : t) :
  blank s = true -> s <> [] -> forall w, endsInWord w s = false.
Proof.
  induction s as [|c s IH]; intros B N0 w; [now elim N0|].
  simpl in *. apply andb_true_iff in B as [E B]. rewrite E. simpl.
  destruct s as [|d s]; [reflexivity|]. apply IH; [exact B | discriminate].
Qed.

End WordCount.

(** X1. [getWordCount] is zero exactly on blank texts: a text with anything
    but white space in it counts at least one word. *)
Theorem getWordCount_zero_iff_blank (text : jsstring) :
  Nat.eqb (getWordCount text) 0 = JSString.blank text.
Proof.
  rewrite getWordCount_words.
  destruct (JSString.blank text) eqn:B.
  - rewrite wordsFrom_blank by exact B. reflexivity.
  - destruct (wordsFrom false text) eqn:W; [|reflexivity].
    apply wordsFrom_false_zero in W. congruence.
Qed.

(** X2. A white space between two texts separates their words: the count
    of the whole is the sum of the counts of the parts, whatever other white
    space the parts begin or end with. *)
Theorem getWordCount_separator (a b : jsstring) (c : N) :
  JSString.isWhiteSpace c = true ->
  getWordCount (a ++ c :: b) = getWordCount a + getWordCount b.
Proof.
  intros C. rewrite !getWordCount_words, wordsFrom_app. simpl.
  rewrite C. reflexivity.
Qed.

Lemma getWordCount_separator_witness :
  getWordCount (lit "kya haal" ++ 10%N :: lit " hai  ") = 2 + 1.
Proof.
  exact (getWordCount_separator (lit "kya haal") (lit " hai  ") 10%N eq_refl).
Defined.

(** X3. White space around a text does not count: padding a text with
    blank strings on both sides leaves its word count as it was. *)
Theorem getWordCount_padding (pre text post : jsstring) :
  JSString.blank pre = true ->
  JSString.blank post = true ->
  getWordCount (pre ++ text ++ post) = getWordCount text.
Proof.
  intros Bpre Bpost. rewrite !getWordCount_words, !wordsFrom_app.
  rewrite (wordsFrom_blank pre Bpre), (wordsFrom_blank post Bpost).
  replace (endsInWord false pre) with false; [lia|].
  destruct pre as [|x pre]; [reflexivity|].
  symmetry. apply endsInWord_blank; [exact Bpre | discriminate].
Qed.

Lemma getWordCount_padding_witness :
  getWordCount ([9; 32]%N ++ lit "namaste  dost" ++ [10; 160]%N)
  = getWordCount (lit "namaste  dost").
Proof.
  exact (getWordCount_padding [9; 32]%N (lit "namaste  dost") [10; 160]%N
           eq_refl eq_refl).
Defined.

Lemma wordsFrom_bound (s : jsstring) :
  forall w, 2 * wordsFrom w s <= length s + (if w then 0 else 1).
Proof.
  induction s as [|c s IH]; intros w; simpl; [destruct w; lia|].
  destruct (JSString.isWhiteSpace c).
  - specialize (IH false). simpl in IH. destruct w; lia.
  - specialize (IH true). simpl in IH. destruct w; lia.
Qed.

(** X4. Words need a code unit each and a white space between them: twice
    the word count is at most the length of the text plus one. *)
Theorem getWordCount_bound (text : jsstring) :
  2 * getWordCount text <= length text + 1.
Proof. rewrite getWordCount_words. apply (wordsFrom_bound text false). Qed.

(** ** Toasts *)

Lemma filter_all {A : Type} (f : A -> bool) (l : list A) :
  forallb f l = true -> filter f l = l.
Proof.
  induction l as [|x l IH]; simpl; [reflexivity|].
  intros H. apply andb_true_iff in H as [-> H]. now rewrite IH.
Qed.

Lemma eqb_refl_js (s : jsstring) : JSString.eqb s s = true.
Proof. now apply JSStringFacts.eqb_eq. Qed.

(** X5. A toast goes as it came: when no toast shown has the id drawn for
    the new one, adding a toast and then running its timeout callback
    gives back the state as it was. *)
Theorem addToast_then_expire
    (newId msg : jsstring) (ty : ToastType) (st : AppState) :
  forallb (fun t => negb (JSString.eqb (toast_id t) newId)) (toasts st)
  = true ->
  expireToast newId (app (run (addToast newId msg ty) st)) = st.
Proof.
  intros Fresh. destruct st as [i o d s h ts sc].
  unfold expireToast, run, addToast; simpl in *.
  rewrite filter_app, (filter_all _ _ Fresh). simpl.
  rewrite eqb_refl_js. simpl. rewrite app_nil_r. reflexivity.
Qed.

Lemma addToast_then_expire_witness :
  let st :=
    with_toasts
      [ {| toast_id := lit "a1b2c3d4e"; message := lit "Copied!";
           type := success |} ] initialState in
  expireToast (lit "k3x9q0w1z")
    (app (run (addToast (lit "k3x9q0w1z") (lit "Script deleted") info) st))
  = st.
Proof.
  intros st.
  exact (addToast_then_expire (lit "k3x9q0w1z") (lit "Script deleted") info
           st eq_refl).
Defined.

(** When the id drawn is already that of a toast shown, the callback takes
    that toast away too. *)
Example expireToast_collision :
  let st :=
    with_toasts
      [ {| toast_id := lit "a1b2c3d4e"; message := lit "Copied!";
           type := success |} ] initialState in
  toasts
    (expireToast (lit "a1b2c3d4e")
       (app (run (addToast (lit "a1b2c3d4e") (lit "Script deleted") info) st)))
  = [].
Proof. reflexivity. Qed.

(** ** [handleSwap], the whole state *)

(** X6. Two swaps give back the whole state but for the status, which is
    [IDLE] when both texts are empty and [SUCCESS] otherwise: history,
    toasts and scripts are untouched, and a status [ERROR], [LOADING] or
    [STREAMING] is lost. *)
Theorem handleSwap_twice_state (st : AppState) :
  app (run handleSwap (app (run handleSwap st)))
  = with_status (settled st) st.
Proof.
  destruct st as [i o d s h t sc]. unfold run, handleSwap, settled; simpl.
  destruct d, o, i; reflexivity.
Qed.

(** ** The storage service, composed *)

Lemma spread_assoc (a b c : AppData) :
  spread (spread a b) c = spread a (spread b c).
Proof.
  destruct a as [a1 a2], b as [b1 b2], c as [[c1|] [c2|]]; reflexivity.
Qed.

Lemma saveData_compose (first second : AppData) (localStorage : LocalStorage) :
  storageService.saveData second (storageService.saveData first localStorage)
  = storageService.saveData (spread first second) localStorage.
Proof.
  unfold storageService.saveData. simpl. now rewrite spread_assoc.
Qed.

(** X7. Two saves in a row are one save of the two objects spread together:
    for each field the last writer wins, and a field neither save gives
    keeps its stored value. *)
Theorem saveData_saveData
    (first second : AppData) (localStorage : LocalStorage) :
  storageService.saveData second (storageService.saveData first localStorage)
  = storageService.saveData (spread first second) localStorage
  /\ storageService.getData
       (storageService.saveData second
          (storageService.saveData first localStorage))
     = spread (storageService.getData localStorage) (spread first second).
Proof. rewrite saveData_compose. split; reflexivity. Qed.

(** X8. A save of the scripts and a save of the history do not interfere:
    in either order they leave the same stored object, which has both. *)
Theorem saveData_scripts_history_commute
    (ss : list Script) (h : list TranslationHistoryItem)
    (localStorage : LocalStorage) :
  let saveScripts :=
    storageService.saveData
      {| data_scripts := Some ss; data_history := None |} in
  let saveHistory :=
    storageService.saveData
      {| data_scripts := None; data_history := Some h |} in
  saveScripts (saveHistory localStorage)
  = saveHistory (saveScripts localStorage)
  /\ storageService.getData (saveScripts (saveHistory localStorage))
     = {| data_scripts := Some ss; data_history := Some h |}.
Proof.
  intros saveScripts saveHistory. subst saveScripts saveHistory.
  rewrite !saveData_compose. split; reflexivity.
Qed.

(** ** Scripts in storage *)

Section StoredScripts.

Import storageService.

Implicit Types (s : Script) (l : list Script) (sid : jsstring).

Lemma scriptsIn_saveScript s (localStorage : LocalStorage) :
  scriptsIn (saveScript s localStorage)
  = upserted s (scriptsIn localStorage).
Proof. reflexivity. Qed.

Lemma scriptsIn_deleteScript sid (localStorage : LocalStorage) :
  scriptsIn (deleteScript sid localStorage)
  = filter (fun s => negb (JSString.eqb (script_id s) sid))
      (scriptsIn localStorage).
Proof. reflexivity. Qed.

Lemma findIndex_lookup sid l :
  findIndex sid l = None <-> lookupScript sid l = None.
Proof.
  unfold lookupScript.
  induction l as [|x l IH]; simpl; [tauto|].
  destruct (JSString.eqb (script_id x) sid); [split; discriminate|].
  destruct (findIndex sid l); simpl; [|exact IH].
  split; intros H; [discriminate|]. apply IH in H. discriminate.
Qed.

Lemma eqb_trans_false (a b c : jsstring) :
  JSString.eqb a b = true -> JSString.eqb b c = false ->
  JSString.eqb a c = false.
Proof.
  intros H K. apply JSStringFacts.eqb_eq in H as ->. exact K.
Qed.

Lemma lookup_upserted s l sid :
  lookupScript sid (upserted s l)
  = if JSString.eqb (script_id s) sid then Some s else lookupScript sid l.
Proof.
  unfold upserted, lookupScript.
  destruct (JSString.eqb (script_id s) sid) eqn:E.
  - (* the id saved *)
    induction l as [|x l IH]; simpl; [now rewrite E|].
    destruct (JSString.eqb (script_id x) (script_id s)) eqn:XS; simpl;
      [now rewrite E|].
    destruct (findIndex (script_id s) l) as [i|]; simpl in *.
    + destruct (JSString.eqb (script_id x) sid) eqn:X; [|exact IH].
      apply JSStringFacts.eqb_eq in E, X.
      assert (K : JSString.eqb (script_id x) (script_id s) = true)
        by (apply JSStringFacts.eqb_eq; congruence).
      congruence.
    + now rewrite E.
  - (* another id *)
    induction l as [|x l IH]; simpl; [now rewrite E|].
    destruct (JSString.eqb (script_id x) (script_id s)) eqn:X; simpl.
    + rewrite E, (eqb_trans_false _ _ _ X E). reflexivity.
    + destruct (findIndex (script_id s) l) as [i|]; simpl in *.
      * destruct (JSString.eqb (script_id x) sid); [reflexivity | exact IH].
      * now rewrite E.
Qed.

Lemma ids_upserted s l :
  map script_id (upserted s l)
  = match findIndex (script_id s) l with
    | Some _ => map script_id l
    | None => script_id s :: map script_id l
    end.
Proof.
  unfold upserted.
  induction l as [|x l IH]; simpl; [reflexivity|].
  destruct (JSString.eqb (script_id x) (script_id s)) eqn:X; simpl.
  - apply JSStringFacts.eqb_eq in X. now rewrite X.
  - destruct (findIndex (script_id s) l) as [i|]; simpl in *;
      [now rewrite IH | reflexivity].
Qed.

Lemma findIndex_None_notin sid l :
  findIndex sid l = None -> ~ In sid (map script_id l).
Proof.
  induction l as [|x l IH]; simpl; [tauto|].
  destruct (JSString.eqb (script_id x) sid) eqn:X; [discriminate|].
  destruct (findIndex sid l); [discriminate|].
  intros _ [H | H]; [|now apply IH].
  rewrite H, eqb_refl_js in X. discriminate.
Qed.

Lemma NoDup_upserted s l :
  NoDup (map script_id l) -> NoDup (map script_id (upserted s l)).
Proof.
  intros H. rewrite ids_upserted.
  destruct (findIndex (script_id s) l) eqn:F; [exact H|].
  constructor; [now apply findIndex_None_notin | exact H].
Qed.

Lemma NoDup_ids_filter (f : Script -> bool) l :
  NoDup (map script_id l) -> NoDup (map script_id (filter f l)).
Proof.
  induction l as [|x l IH]; simpl; intros H; [constructor|].
  inversion H as [|? ? Hx Hl]; subst.
  destruct (f x); simpl; [|now apply IH].
  constructor; [|now apply IH].
  intros K. apply Hx. apply in_map_iff in K as (y & Ey & Hy).
  apply filter_In in Hy as [Hy _]. apply in_map_iff. now exists y.
Qed.

Lemma filter_fresh sid l :
  lookupScript sid l = None ->
  filter (fun s => negb (JSString.eqb (script_id s) sid)) l = l.
Proof.
  unfold lookupScript.
  induction l as [|x l IH]; simpl; [reflexivity|].
  destruct (JSString.eqb (script_id x) sid); [discriminate|].
  intros H. simpl. now rewrite IH.
Qed.

End StoredScripts.

(** X9. What [saveScript] stores is found again by id, and the scripts of
    other ids are found as before: looking an id up after a save gives the
    saved script for its own id and the earlier answer for any other. *)
Theorem saveScript_lookup
    (script : Script) (scriptId : jsstring) (localStorage : LocalStorage) :
  lookupScript scriptId
    (scriptsIn (storageService.saveScript script localStorage))
  = if JSString.eqb (script_id script) scriptId then Some script
    else lookupScript scriptId (scriptsIn localStorage).
Proof. rewrite scriptsIn_saveScript. apply lookup_upserted. Qed.

(** X10. [saveScript] replaces a script that has the same id and adds the
    script at the head when none has: the number of stored scripts grows by
    one exactly when the id was not stored, and the ids stored before are
    kept in their order. *)
Theorem saveScript_ids (script : Script) (localStorage : LocalStorage) :
  let before := scriptsIn localStorage in
  let after := scriptsIn (storageService.saveScript script localStorage) in
  map script_id after
  = match lookupScript (script_id script) before with
    | Some _ => map script_id before
    | None => script_id script :: map script_id before
    end.
Proof.
  intros before after. subst before after.
  rewrite scriptsIn_saveScript, ids_upserted.
  destruct (storageService.findIndex (script_id script)
              (scriptsIn localStorage)) eqn:F.
  - destruct (lookupScript (script_id script) (scriptsIn localStorage)) eqn:L;
      [reflexivity|].
    apply findIndex_lookup in L. congruence.
  - apply findIndex_lookup in F. now rewrite F.
Qed.

(** X11. After [deleteScript] no script of the deleted id is found, and
    the scripts of other ids are found as before. *)
Theorem deleteScript_lookup
    (deleted scriptId : jsstring) (localStorage : LocalStorage) :
  lookupScript scriptId
    (scriptsIn (storageService.deleteScript deleted localStorage))
  = if JSString.eqb deleted scriptId then None
    else lookupScript scriptId (scriptsIn localStorage).
Proof.
  rewrite scriptsIn_deleteScript. unfold lookupScript.
  induction (scriptsIn localStorage) as [|x l IH]; simpl.
  - now destruct (JSString.eqb deleted scriptId).
  - destruct (JSString.eqb (script_id x) deleted) eqn:X; simpl.
    + rewrite IH. destruct (JSString.eqb deleted scriptId) eqn:D;
        [reflexivity|].
      now rewrite (eqb_trans_false _ _ _ X D).
    + destruct (JSString.eqb (script_id x) scriptId) eqn:Y; [|exact IH].
      destruct (JSString.eqb deleted scriptId) eqn:D; [|reflexivity].
      apply JSStringFacts.eqb_eq in D, Y.
      assert (K : JSString.eqb (script_id x) deleted = true)
        by (apply JSStringFacts.eqb_eq; congruence).
      congruence.
Qed.

(** X12. Saving a script under an id that is not stored and deleting that
    id again gives back the stored scripts as they were. *)
Theorem saveScript_then_deleteScript
    (script : Script) (localStorage : LocalStorage) :
  lookupScript (script_id script) (scriptsIn localStorage) = None ->
  scriptsIn
    (storageService.deleteScript (script_id script)
       (storageService.saveScript script localStorage))
  = scriptsIn localStorage.
Proof.
  intros Fresh.
  rewrite scriptsIn_deleteScript, scriptsIn_saveScript. unfold upserted.
  apply findIndex_lookup in Fresh as F. rewrite F. simpl.
  rewrite eqb_refl_js. simpl. now apply filter_fresh.
Qed.

Lemma saveScript_then_deleteScript_witness :
  let kept :=
    {| script_id := lit "a1b2c3d4e"; title := lit "Intro";
       content := lit "<p>Namaste</p>"; lastModified := 1700000000000 |} in
  let added :=
    {| script_id := lit "k3x9q0w1z"; title := lit "Untitled Script";
       content := lit "<p>Start writing your script here...</p>";
       lastModified := 1700000000500 |} in
  let localStorage :=
    Some {| data_scripts := Some [kept]; data_history := Some [] |} in
  scriptsIn
    (storageService.deleteScript (script_id added)
       (storageService.saveScript added localStorage))
  = [kept].
Proof.
  intros kept added localStorage.
  exact (saveScript_then_deleteScript added localStorage eq_refl).
Defined.

(** X13. The script operations of the storage service never touch the
    stored history. *)
Theorem script_operations_keep_history
    (script : Script) (scriptId : jsstring) (localStorage : LocalStorage) :
  data_history
    (storageService.getData (storageService.saveScript script localStorage))
  = data_history (storageService.getData localStorage)
  /\ data_history
       (storageService.getData
          (storageService.deleteScript scriptId localStorage))
     = data_history (storageService.getData localStorage).
Proof. split; reflexivity. Qed.

(** ** Scripts in the application *)

Lemma handleTranslate_scripts ai newId now st :
  scripts (app (run (handleTranslate ai newId now) st)) = scripts st.
Proof.
  destruct (JSString.blank (inputText st)) eqn:B.
  - now rewrite handleTranslate_blank_run.
  - rewrite handleTranslate_nonblank_run by exact B.
    now destruct (completion _).
Qed.

Lemma handleSwap_scripts st :
  scripts (app (run handleSwap st)) = scripts st.
Proof.
  unfold run, handleSwap; simpl. destruct (_ && _); reflexivity.
Qed.

Lemma scriptsIn_saveData_history h (ls : LocalStorage) :
  scriptsIn
    (storageService.saveData {| data_scripts := None; data_history := h |} ls)
  = scriptsIn ls.
Proof. reflexivity. Qed.

Lemma distinctIds_perform (a : Action) (b : Browser) :
  distinctIds b -> distinctIds (perform a b).
Proof.
  intros [Hui Hst]. unfold distinctIds in *.
  destruct b as [st ls]; simpl in *.
  destruct a; simpl; auto.
  - (* Reload *) split; [constructor | exact Hst].
  - (* Mount *)
    unfold loadData, scriptsIn, storageService.scripts_or_empty in *;
      simpl in *.
    destruct (data_history (storageService.getData ls)) as [h|],
             (data_scripts (storageService.getData ls)) as [ss|];
      simpl; auto.
  - (* HistoryEffect *)
    unfold historyEffect; simpl.
    destruct (Nat.ltb 0 (length (history st))); simpl; auto.
  - (* Translate *) rewrite handleTranslate_scripts. auto.
  - (* Swap *) rewrite handleSwap_scripts. auto.
  - (* PickHistory *)
    destruct (nth_error (history st) index); simpl; auto.
  - (* SaveScript *)
    split; [apply (NoDup_upserted s _ Hui) | apply (NoDup_upserted s _ Hst)].
  - (* DeleteScript *)
    split; [apply (NoDup_ids_filter _ _ Hui) | apply (NoDup_ids_filter _ _ Hst)].
Qed.

(** X14. The id identifies a script: after any sequence of actions from the
    first visit, no two scripts of the application have the same id, and no
    two stored scripts have. *)
Theorem script_ids_distinct (actions : list Action) :
  NoDup (map script_id (scripts (ui (exec actions))))
  /\ NoDup (map script_id (scriptsIn (localStorage (exec actions)))).
Proof.
  unfold exec.
  assert (G : forall b, distinctIds b ->
            distinctIds (fold_left (fun b a => perform a b) actions b)).
  { induction actions as [|a actions IH]; intros b H; simpl; [exact H|].
    apply IH, distinctIds_perform, H. }
  apply G. split; constructor.
Qed.

Lemma scriptsPresent_perform (a : Action) (b : Browser) :
  data_scripts (storageService.getData (localStorage b)) <> None ->
  data_scripts (storageService.getData (localStorage (perform a b))) <> None.
Proof.
  destruct b as [st ls]; simpl. intros H.
  destruct a; simpl; auto; try discriminate.
  - unfold historyEffect; simpl.
    destruct (Nat.ltb 0 (length (history st))); simpl; auto.
  - destruct (nth_error (history st) index); simpl; auto.
Qed.

Lemma scriptsPresent_exec (actions : list Action) :
  data_scripts (storageService.getData (localStorage (exec actions))) <> None.
Proof.
  unfold exec.
  assert (G : forall b,
            data_scripts (storageService.getData (localStorage b)) <> None ->
            data_scripts
              (storageService.getData
                 (localStorage (fold_left (fun b a => perform a b) actions b)))
            <> None).
  { induction actions as [|a actions IH]; intros b H; simpl; [exact H|].
    apply IH, scriptsPresent_perform, H. }
  apply G. discriminate.
Qed.

Lemma inSync_perform (a : Action) (b : Browser) :
  stays a = true -> inSync b -> inSync (perform a b).
Proof.
  unfold inSync. destruct b as [st ls]; simpl. intros S H.
  destruct a; simpl; try discriminate; auto.
  - (* Mount *)
    unfold loadData; simpl. rewrite H.
    destruct (data_history (storageService.getData ls)); reflexivity.
  - (* HistoryEffect *)
    unfold historyEffect; simpl.
    destruct (Nat.ltb 0 (length (history st))); simpl; auto.
  - (* Translate *) rewrite handleTranslate_scripts. auto.
  - (* Swap *) rewrite handleSwap_scripts. auto.
  - (* PickHistory *)
    destruct (nth_error (history st) index); simpl; auto.
  - (* SaveScript *)
    unfold storageService.scripts_or_empty. rewrite H. reflexivity.
  - (* DeleteScript *)
    unfold storageService.scripts_or_empty. rewrite H. reflexivity.
Qed.

(** X15. Once mounted, the script list of the application is the stored
    one and stays so: after any actions from the first visit, a mount, and
    then any actions that do not reload the page, the scripts shown are
    exactly the scripts in storage. *)
Theorem scripts_shown_are_stored (actions later : list Action) :
  forallb stays later = true ->
  let b :=
    fold_left (fun b a => perform a b) later (perform Mount (exec actions)) in
  scripts (ui b) = scriptsIn (localStorage b).
Proof.
  intros S b.
  assert (G : forall b0, inSync b0 ->
            inSync (fold_left (fun b a => perform a b) later b0)).
  { clear b. induction later as [|a later IH]; intros b0 H; simpl; [exact H|].
    simpl in S. apply andb_true_iff in S as [Sa S].
    apply IH; [exact S|]. now apply inSync_perform. }
  assert (M : inSync (perform Mount (exec actions))).
  { pose proof (scriptsPresent_exec actions) as P. unfold inSync.
    destruct (exec actions) as [st ls]; simpl in *. unfold loadData; simpl.
    destruct (data_scripts (storageService.getData ls)) as [ss|];
      [|now elim P].
    destruct (data_history (storageService.getData ls)); reflexivity. }
  specialize (G _ M). fold b in G. unfold inSync in G.
  unfold scriptsIn, storageService.scripts_or_empty. now rewrite G.
Qed.

Lemma scripts_shown_are_stored_witness :
  let s1 :=
    {| script_id := lit "a1b2c3d4e"; title := lit "Intro";
       content := lit "<p>Namaste</p>"; lastModified := 1700000000000 |} in
  let s2 :=
    {| script_id := lit "a1b2c3d4e"; title := lit "Intro, again";
       content := lit "<p>Namaste doston</p>";
       lastModified := 1700000000900 |} in
  let b :=
    exec [SaveScript s1; Reload; Mount; SaveScript s2; ClearHistory] in
  scripts (ui b) = [s2] /\ scriptsIn (localStorage b) = [s2].
Proof.
  intros s1 s2 b.
  pose proof (scripts_shown_are_stored [SaveScript s1; Reload]
                [SaveScript s2; ClearHistory] eq_refl) as H.
  split; [reflexivity|]. symmetry. exact H.
Defined.

(** Before the mount that follows a reload, the two differ. *)
Example scripts_not_shown_before_mount :
  let s1 :=
    {| script_id := lit "a1b2c3d4e"; title := lit "Intro";
       content := lit "<p>Namaste</p>"; lastModified := 1700000000000 |} in
  let b := exec [SaveScript s1; Reload] in
  scripts (ui b) = [] /\ scriptsIn (localStorage b) = [s1].
Proof. split; reflexivity. Qed.

(** ** The history, across a reload *)

(** X16. A history that is not empty survives a reload: once the effect on
    [history] has run, reloading the page and mounting gives the same
    history again. *)
Theorem history_survives_reload (b : Browser) :
  0 < length (history (ui b)) ->
  history (ui (perform Mount (perform Reload (perform HistoryEffect b))))
  = history (ui b).
Proof.
  intros H. destruct b as [st ls]; simpl in *.
  unfold historyEffect; simpl.
  apply Nat.ltb_lt in H. rewrite H. unfold loadData; simpl.
  destruct (data_scripts (storageService.getData ls)); reflexivity.
Qed.

Lemma history_survives_reload_witness :
  let ai : Remote := fun _ =>
    Streamed [ {| text := Some (lit "Hello") |} ] EndOfStream in
  let b := exec [TypeInput (lit "namaste"); Translate ai (lit "k3x9q0w1z") 7] in
  map translated
    (history (ui (perform Mount (perform Reload (perform HistoryEffect b)))))
  = [lit "Hello"].
Proof.
  intros ai b.
  rewrite (history_survives_reload b); [reflexivity|].
  vm_compute. lia.
Defined.

(** X17. A cleared history stays cleared: the trash button empties the
    history shown and the stored one, so that a reload and a mount show an
    empty history, whatever was stored before. *)
Theorem clearHistory_survives_reload (b : Browser) :
  history (ui (perform ClearHistory b)) = []
  /\ storedHistory (perform ClearHistory b) = []
  /\ history (ui (perform Mount (perform Reload (perform ClearHistory b))))
     = [].
Proof.
  destruct b as [st ls]; simpl. unfold loadData; simpl.
  repeat split.
  destruct (data_scripts (storageService.getData ls)); reflexivity.
Qed.

(** The effect alone would not do it: it writes nothing for an empty
    history, and the stored one would come back. *)
Example historyEffect_keeps_stored_history :
  let ai : Remote := fun _ =>
    Streamed [ {| text := Some (lit "Hello") |} ] EndOfStream in
  let b :=
    exec [TypeInput (lit "namaste"); Translate ai (lit "k3x9q0w1z") 7;
          HistoryEffect] in
  let emptied := {| ui := with_history [] (ui b);
                    localStorage := localStorage b |} in
  map translated
    (history
       (ui (perform Mount (perform Reload (perform HistoryEffect emptied)))))
  = [lit "Hello"].
Proof. reflexivity. Qed.

(** ** The pipeline, further *)

(** [translateTextStream] on a non-blank text, by what the service answers. *)
Lemma translateTextStream_answer ai text direction :
  JSString.blank text = false ->
  translateTextStream ai text direction
  = let params := request text direction in
    let failure := Throw (lit "Connection interrupted. Please try again.") in
    match ai params with
    | Rejected =>
        {| events := [GenCall params; GenConsoleError];
           completion := failure |}
    | Streamed response EndOfStream =>
        {| events := GenCall params :: yield_chunks response;
           completion := Return |}
    | Streamed response StreamError =>
        {| events :=
             GenCall params :: yield_chunks response ++ [GenConsoleError];
           completion := failure |}
    end.
Proof.
  intros B. unfold translateTextStream.
  rewrite JSStringFacts.guard_blank, B.
  destruct direction; reflexivity.
Qed.

Lemma concat_yield_chunks (response : list Chunk) :
  concat (fragments (yield_chunks response))
  = concat (map chunkText response).
Proof.
  induction response as [|[[txt|]] r IH]; simpl; auto.
  unfold chunkText; simpl.
  destruct txt as [|c txt]; simpl; [exact IH|].
  now rewrite IH.
Qed.

Lemma partials_prefixes (fs : list jsstring) :
  forall acc,
    Forall (fun p => exists rest, acc ++ concat fs = p ++ rest)
      (partials acc fs).
Proof.
  induction fs as [|f fs IH]; intros acc; simpl; constructor.
  - exists (concat fs). now rewrite app_assoc.
  - rewrite app_assoc. apply IH.
Qed.

(** X18. The text shown only grows: every text [handleTranslate] publishes
    during a run is a prefix of the output text the run ends with. *)
Theorem published_are_prefixes
    (ai : Remote) (newId : jsstring) (now : Z) (st : AppState) :
  let w := run (handleTranslate ai newId now) st in
  Forall (fun p => exists rest, outputText (app w) = p ++ rest)
    (published (trace w)).
Proof.
  intros w. subst w.
  destruct (JSString.blank (inputText st)) eqn:B.
  - rewrite handleTranslate_blank_run by exact B. constructor.
  - rewrite handleTranslate_nonblank_run by exact B.
    set (fs := fragments (events _)).
    assert (P : Forall (fun p => exists rest, concat fs = p ++ rest)
                  (JSString.empty :: partials JSString.empty fs)).
    { constructor; [now exists (concat fs)|].
      exact (partials_prefixes fs JSString.empty). }
    destruct (completion _); unfold opening; simpl;
      autorewrite with trace; simpl; rewrite ?app_nil_r; exact P.
Qed.

(** X19. A stream that ends without a single fragment is a success all the
    same: the status is [SUCCESS], the output is empty, and a record with an
    empty translation is put at the head of the history. *)
Theorem handleTranslate_no_fragment
    (ai : Remote) (newId : jsstring) (now : Z) (st : AppState) :
  let stream := translateTextStream ai (inputText st) (app_direction st) in
  JSString.blank (inputText st) = false ->
  completion stream = Return ->
  fragments (events stream) = [] ->
  let w := run (handleTranslate ai newId now) st in
  status (app w) = SUCCESS
  /\ outputText (app w) = JSString.empty
  /\ history (app w)
     = {| id := newId; original := inputText st;
          translated := JSString.empty; timestamp := now;
          direction := app_direction st |} :: firstn 49 (history st).
Proof.
  intros stream B C F w. subst w.
  rewrite (handleTranslate_nonblank_run ai newId now st B).
  fold stream. rewrite C. unfold newItemOf. cbv zeta. fold stream.
  rewrite F. repeat split.
Qed.

Lemma handleTranslate_no_fragment_witness :
  let ai : Remote := fun _ =>
    Streamed [ {| text := None |}; {| text := Some [] |} ] EndOfStream in
  let st := with_inputText (lit "namaste") initialState in
  let w := run (handleTranslate ai (lit "k3x9q0w1z") 1700000000000) st in
  status (app w) = SUCCESS
  /\ map translated (history (app w)) = [JSString.empty].
Proof.
  intros ai st w.
  destruct (handleTranslate_no_fragment ai (lit "k3x9q0w1z") 1700000000000 st)
    as (H1 & _ & H3); try reflexivity.
  split; [exact H1|]. subst w. rewrite H3. reflexivity.
Defined.

(** X20. On a non-blank text the run never ends while processing: the
    status it ends with is [SUCCESS] when the service answers with a stream
    that reaches its end, and [ERROR] when the call is rejected or the
    stream breaks off. *)
Theorem handleTranslate_final_status
    (ai : Remote) (newId : jsstring) (now : Z) (st : AppState) :
  JSString.blank (inputText st) = false ->
  let w := run (handleTranslate ai newId now) st in
  status (app w)
  = match ai (request (inputText st) (app_direction st)) with
    | Streamed _ EndOfStream => SUCCESS
    | _ => ERROR
    end
  /\ isProcessing (app w) = false.
Proof.
  intros B w. subst w.
  rewrite (handleTranslate_nonblank_run ai newId now st B).
  rewrite (translateTextStream_answer ai _ _ B). cbv zeta.
  destruct (ai _) as [|response [|]]; split; reflexivity.
Qed.

Lemma handleTranslate_final_status_witness :
  let ai : Remote := fun _ =>
    Streamed [ {| text := Some (lit "Hel") |} ] StreamError in
  let st := with_inputText (lit "namaste") initialState in
  status (app (run (handleTranslate ai (lit "k3x9q0w1z") 7) st)) = ERROR.
Proof.
  intros ai st.
  destruct (handleTranslate_final_status ai (lit "k3x9q0w1z") 7 st eq_refl)
    as [H _].
  exact H.
Defined.

(** X21. Nothing of the answer is lost or added: the output text a run
    ends with is the texts of all the chunks the service sent, absent ones
    counting as empty, put together in order, whether the stream reached
    its end or broke off. *)
Theorem handleTranslate_output_is_answer
    (ai : Remote) (newId : jsstring) (now : Z) (st : AppState)
    (response : list Chunk) (ending : StreamEnd) :
  JSString.blank (inputText st) = false ->
  ai (request (inputText st) (app_direction st)) = Streamed response ending ->
  outputText (app (run (handleTranslate ai newId now) st))
  = concat (map chunkText response).
Proof.
  intros B A.
  rewrite (handleTranslate_nonblank_run ai newId now st B).
  rewrite (translateTextStream_answer ai _ _ B). cbv zeta. rewrite A.
  destruct ending; simpl; rewrite ?fragments_app; simpl;
    rewrite ?app_nil_r; apply concat_yield_chunks.
Qed.

Lemma handleTranslate_output_is_answer_witness :
  let response :=
    [ {| text := Some (lit "Hel") |}; {| text := None |};
      {| text := Some [] |}; {| text := Some (lit "lo") |} ] in
  let ai : Remote := fun _ => Streamed response StreamError in
  let st := with_inputText (lit "namaste") initialState in
  outputText (app (run (handleTranslate ai (lit "k3x9q0w1z") 7) st))
  = lit "Hello".
Proof.
  intros response ai st.
  exact (handleTranslate_output_is_answer ai (lit "k3x9q0w1z") 7 st
           (response := response) (ending := StreamError) eq_refl eq_refl).
Defined.

(** X22. One attempt, and the text as typed: on a non-blank text a run
    issues exactly one call to the service, also when it fails, and the
    call carries the input text untrimmed, the model and the temperature of
    the source, and the instruction of the direction. *)
Theorem handleTranslate_one_call
    (ai : Remote) (newId : jsstring) (now : Z) (st : AppState) :
  JSString.blank (inputText st) = false ->
  remoteCalls (trace (run (handleTranslate ai newId now) st))
  = [ {| model := lit "gemini-2.5-flash";
         contents := inputText st;
         systemInstruction :=
           match app_direction st with
           | HI_TO_EN => SYSTEM_INSTRUCTION_HI_TO_EN
           | EN_TO_HI => SYSTEM_INSTRUCTION_EN_TO_HI
           end;
         temperature := (4 # 10)%Q |} ].
Proof.
  intros B.
  rewrite (handleTranslate_nonblank_run ai newId now st B).
  pose proof (translateTextStream_calls ai _ (app_direction st) B) as C.
  destruct (completion _); unfold opening; simpl;
    autorewrite with trace; simpl; rewrite ?app_nil_r; exact C.
Qed.

Lemma handleTranslate_one_call_witness :
  let ai : Remote := fun _ => Rejected in
  let st := with_inputText (lit "  namaste ") initialState in
  map contents
    (remoteCalls (trace (run (handleTranslate ai (lit "k3x9q0w1z") 7) st)))
  = [lit "  namaste "].
Proof.
  intros ai st.
  rewrite (handleTranslate_one_call ai (lit "k3x9q0w1z") 7 st eq_refl).
  reflexivity.
Defined.

(** X23. A new translation starts afresh: on a non-blank text, what a run
    does and the state it ends in do not depend on the output text and the
    status left by what came before. *)
Theorem handleTranslate_forgets_previous
    (ai : Remote) (newId : jsstring) (now : Z) (st : AppState)
    (previous : jsstring) (s : TranslationStatus) :
  JSString.blank (inputText st) = false ->
  run (handleTranslate ai newId now)
    (with_status s (with_outputText previous st))
  = run (handleTranslate ai newId now) st.
Proof.
  intros B.
  rewrite (handleTranslate_nonblank_run ai newId now st B).
  rewrite (handleTranslate_nonblank_run ai newId now
             (with_status s (with_outputText previous st)) B).
  reflexivity.
Qed.

Lemma handleTranslate_forgets_previous_witness :
  let ai : Remote := fun _ =>
    Streamed [ {| text := Some (lit "Hello") |} ] EndOfStream in
  let st := with_inputText (lit "namaste") initialState in
  outputText
    (app (run (handleTranslate ai (lit "k3x9q0w1z") 7)
            (with_status ERROR (with_outputText (lit "Hel") st))))
  = lit "Hello".
Proof.
  intros ai st.
  rewrite (handleTranslate_forgets_previous ai (lit "k3x9q0w1z") 7 st
             (lit "Hel") ERROR eq_refl).
  reflexivity.
Defined.

(** X24. What the user is told: a run shows exactly one error toast when
    it fails, "Please enter text" for a blank text and "Translation failed"
    when the call is rejected or the stream breaks off, and no toast when it
    succeeds. *)
Theorem handleTranslate_toasts
    (ai : Remote) (newId : jsstring) (now : Z) (st : AppState) :
  let toast msg := {| toast_id := newId; message := msg; type := error |} in
  shown (trace (run (handleTranslate ai newId now) st))
  = if JSString.blank (inputText st)
    then [toast (lit "Please enter text")]
    else
      match ai (request (inputText st) (app_direction st)) with
      | Streamed _ EndOfStream => []
      | _ => [toast (lit "Translation failed")]
      end.
Proof.
  intros toast. subst toast.
  destruct (JSString.blank (inputText st)) eqn:B.
  - now rewrite handleTranslate_blank_run.
  - rewrite (handleTranslate_nonblank_run ai newId now st B).
    rewrite (translateTextStream_answer ai _ _ B). cbv zeta.
    destruct (ai _) as [|response [|]]; unfold opening; simpl;
      autorewrite with trace; reflexivity.
Qed.

(** X25. A translation can be recalled: after a successful run, whatever is
    typed next, picking the first record of the history brings back the
    text that was translated and the output the run ended with. *)
Theorem pick_recalls_translation
    (ai : Remote) (newId : jsstring) (now : Z) (typed : jsstring)
    (b : Browser) :
  let stream :=
    translateTextStream ai (inputText (ui b)) (app_direction (ui b)) in
  JSString.blank (inputText (ui b)) = false ->
  completion stream = Return ->
  let b1 := perform (Translate ai newId now) b in
  let b2 := perform (PickHistory 0) (perform (TypeInput typed) b1) in
  inputText (ui b2) = inputText (ui b)
  /\ outputText (ui b2) = outputText (ui b1).
Proof.
  intros stream B C b1 b2. subst b1 b2.
  destruct b as [st ls]; simpl in *.
  rewrite (handleTranslate_nonblank_run ai newId now st B).
  fold stream. rewrite C. split; reflexivity.
Qed.

Lemma pick_recalls_translation_witness :
  let ai : Remote := fun _ =>
    Streamed [ {| text := Some (lit "Hello") |} ] EndOfStream in
  let b := exec [TypeInput (lit "namaste")] in
  let b2 :=
    perform (PickHistory 0)
      (perform (TypeInput (lit "phir milenge"))
         (perform (Translate ai (lit "k3x9q0w1z") 7) b)) in
  inputText (ui b2) = lit "namaste" /\ outputText (ui b2) = lit "Hello".
Proof.
  intros ai b b2.
  destruct (pick_recalls_translation ai (lit "k3x9q0w1z") 7
              (lit "phir milenge") b eq_refl eq_refl) as [H1 H2].
  split; [exact H1 | exact H2].
Defined.

Lemma Forall_firstn_keep {A : Type} (P : A -> Prop) (n : nat) (l : list A) :
  Forall P l -> Forall P (firstn n l).
Proof.
  revert n; induction l as [|x l IH]; intros [|n] H; simpl;
    try constructor; inversion H; subst; auto.
Qed.

Lemma handleTranslate_history_request ai newId now st :
  let h := history (app (run (handleTranslate ai newId now) st)) in
  h = history st
  \/ (JSString.blank (inputText st) = false
      /\ h = newItemOf ai newId now st :: firstn 49 (history st)).
Proof.
  destruct (JSString.blank (inputText st)) eqn:B; simpl.
  - rewrite handleTranslate_blank_run by exact B. left; reflexivity.
  - rewrite handleTranslate_nonblank_run by exact B.
    destruct (completion _); [right; split | left]; reflexivity.
Qed.

Lemma requestsNotBlank_perform (a : Action) (b : Browser) :
  requestsNotBlank b -> requestsNotBlank (perform a b).
Proof.
  intros [Hui Hst]. unfold requestsNotBlank, storedHistory in *.
  destruct b as [st ls]; simpl in *.
  destruct a; simpl.
  - (* Reload *) split; [constructor | exact Hst].
  - (* Mount *)
    unfold loadData; simpl.
    destruct (data_history (storageService.getData ls)) as [h|],
             (data_scripts (storageService.getData ls)) as [ss|];
      simpl; split; assumption.
  - (* HistoryEffect *)
    unfold historyEffect; simpl.
    destruct (Nat.ltb 0 (length (history st))); simpl; split; assumption.
  - (* Translate *)
    split; [|exact Hst].
    destruct (handleTranslate_history_request ai newId now st)
      as [-> | [B ->]]; [exact Hui|].
    constructor; [exact B | now apply Forall_firstn_keep].
  - (* Swap *) rewrite handleSwap_history. split; assumption.
  - (* TypeInput *) split; assumption.
  - (* PickHistory *)
    destruct (nth_error (history st) index); simpl; split; assumption.
  - (* ClearHistory *) split; constructor.
  - (* SaveScript *) split; assumption.
  - (* DeleteScript *) split; assumption.
Qed.

(** X26. Only real requests make history: after any sequence of actions
    from the first visit, every record of the history, shown or stored, has
    an original text that is not blank. *)
Theorem history_requests_not_blank (actions : list Action) :
  Forall (fun item => JSString.blank (original item) = false)
    (history (ui (exec actions)))
  /\ Forall (fun item => JSString.blank (original item) = false)
       (storedHistory (exec actions)).
Proof.
  unfold exec.
  assert (G : forall b, requestsNotBlank b ->
            requestsNotBlank (fold_left (fun b a => perform a b) actions b)).
  { induction actions as [|a actions IH]; intros b H; simpl; [exact H|].
    apply IH, requestsNotBlank_perform, H. }
  apply G. split; constructor.
Qed.
